(** * Sketchfab author-model downloader: catalog fetch, license gate, download loop

    A shallow embedding of [sketchfab_downloader_standalone.py]
    (class [SketchfabDownloader]) and the properties of its three parts:
    the paginated catalog fetcher [get_user_models], the license-matching
    loop of [download_author_models], and the sequential per-entry
    download loop with its counters.

    Conventions of the embedding.
    - A Python [str] is a [string]; its characters are the code points
      below 256 (ASCII and Latin-1), for which the tables of
      [str.lower], [str.isspace] and [str.isalnum] are written out in
      full.
    - The remote service and the file system are explicit: every call of
      [requests.get] consumes or consults a described answer, and every
      answer may be an exception.
    - [print] and [time.sleep] have no effect on any value the program
      computes and are left out; what the program reports per entry is
      kept as an [outcome]. *)

From Stdlib Require Import ZArith NArith Ascii String List Bool Lia.
From stdpp Require Import base gmap strings list.

Open Scope string_scope.
Open Scope list_scope.

(** ** Python string primitives *)

Module Py.

Definition between (lo hi n : N) : bool := ((lo <=? n) && (n <=? hi))%N.

(** Code points with a lowercase mapping: A-Z, U+00C0-U+00D6, U+00D8-U+00DE. *)
Definition has_lower (c : ascii) : bool :=
  let n := N_of_ascii c in
  between 65 90 n || between 192 214 n || between 216 222 n.

Definition lower_char (c : ascii) : ascii :=
  if has_lower c then ascii_of_N (N_of_ascii c + 32) else c.

(** What [str.strip()] removes: TAB..CR, FS..US, space, NEL, NBSP. *)
Definition isspace (c : ascii) : bool :=
  let n := N_of_ascii c in
  between 9 13 n || between 28 32 n || (n =? 133)%N || (n =? 160)%N.

(** [c.isalnum()]: letters, decimal digits, and the Latin-1 letters,
    superscript digits and vulgar fractions. *)
Definition isalnum (c : ascii) : bool :=
  let n := N_of_ascii c in
  between 48 57 n || between 65 90 n || between 97 122 n
  || (n =? 170)%N || between 178 179 n || (n =? 181)%N
  || between 185 186 n || between 188 190 n
  || between 192 214 n || between 216 246 n || between 248 255 n.

Fixpoint map_str (f : ascii -> ascii) (s : string) : string :=
  match s with
  | EmptyString => EmptyString
  | String c s' => String (f c) (map_str f s')
  end.

Fixpoint filter_str (p : ascii -> bool) (s : string) : string :=
  match s with
  | EmptyString => EmptyString
  | String c s' => if p c then String c (filter_str p s') else filter_str p s'
  end.

(** [s.lower()] *)
Definition lower (s : string) : string := map_str lower_char s.

(** [s.replace(old, new)] for one-character [old] and [new]. *)
Definition replace (old new : ascii) (s : string) : string :=
  map_str (fun c => if Ascii.eqb c old then new else c) s.

Fixpoint lstrip (s : string) : string :=
  match s with
  | EmptyString => EmptyString
  | String c s' => if isspace c then lstrip s' else s
  end.

Fixpoint rstrip (s : string) : string :=
  match s with
  | EmptyString => EmptyString
  | String c s' =>
      match rstrip s' with
      | EmptyString => if isspace c then EmptyString else String c EmptyString
      | r => String c r
      end
  end.

(** [s.strip()] *)
Definition strip (s : string) : string := rstrip (lstrip s).

(** [sub in s] *)
Fixpoint contains (sub s : string) : bool :=
  String.prefix sub s ||
  match s with
  | EmptyString => false
  | String _ s' => contains sub s'
  end.

(** [s[:n]] *)
Fixpoint take (n : nat) (s : string) : string :=
  match n, s with
  | O, _ => EmptyString
  | S _, EmptyString => EmptyString
  | S n', String c s' => String c (take n' s')
  end.

(** [s.split(sep)] for a one-character separator: never empty. *)
Fixpoint split (sep : ascii) (s : string) : list string :=
  match s with
  | EmptyString => [EmptyString]
  | String c s' =>
      if Ascii.eqb c sep then EmptyString :: split sep s'
      else match split sep s' with
           | h :: t => String c h :: t
           | [] => [String c EmptyString]
           end
  end.

(** [xs[-1]] and [xs[0]] on the result of a [split]. *)
Definition last_item (xs : list string) : string := List.last xs EmptyString.
Definition first_item (xs : list string) : string := List.hd EmptyString xs.

(** [c in s] for a character, and "every character of [s] satisfies [p]". *)
Fixpoint has_char (c : ascii) (s : string) : bool :=
  match s with
  | EmptyString => false
  | String a s' => Ascii.eqb a c || has_char c s'
  end.

Fixpoint all_chars (p : ascii -> bool) (s : string) : bool :=
  match s with
  | EmptyString => true
  | String a s' => p a && all_chars p s'
  end.

(** The text after the last occurrence of [c] (all of [s] when there
    is none), and the text before the first one. *)
Fixpoint after_last (c : ascii) (s : string) : string :=
  match s with
  | EmptyString => EmptyString
  | String a s' =>
      if has_char c s' then after_last c s'
      else if Ascii.eqb a c then s' else s
  end.

Fixpoint before_first (c : ascii) (s : string) : string :=
  match s with
  | EmptyString => EmptyString
  | String a s' => if Ascii.eqb a c then EmptyString else String a (before_first c s')
  end.

(** Truthiness of a string: [if s:] *)
Definition truthy (s : string) : bool :=
  match s with EmptyString => false | _ => true end.

(** [s.isalnum()] on a string of any length: every character is
    alphanumeric and there is at least one. *)
Definition str_isalnum (s : string) : bool :=
  truthy s && all_chars isalnum s.

End Py.

(** ** The license check (lines 108-139 of the source) *)

Module License.
Import Py.

Definition dash_to_space (s : string) : string :=
  replace "_" " " (replace "-" " " s).

(** What the two replacements do to one character. *)
Definition d2s_char (c : ascii) : ascii :=
  if Ascii.eqb (if Ascii.eqb c "-" then " "%char else c) "_" then " "%char
  else if Ascii.eqb c "-" then " "%char else c.

(** The body of [for allowed in allowed_licenses], with [break] as the
    end of the recursion. *)
Fixpoint license_matches (license_label_lower : string)
         (allowed_licenses : list string) : bool :=
  match allowed_licenses with
  | [] => false
  | allowed :: rest =>
      let allowed_lower := strip (lower allowed) in
      if String.eqb license_label_lower allowed_lower then true else
      let license_normalized := dash_to_space license_label_lower in
      let allowed_normalized := dash_to_space allowed_lower in
      if String.eqb license_normalized allowed_normalized then true else
      if String.eqb allowed_lower "by"
         && (contains "attribution" license_normalized
             || (contains "cc" license_normalized
                 && contains "by" license_normalized))
         && (negb (contains "nc" license_normalized)
             && negb (contains "nd" license_normalized)
             && negb (contains "sa" license_normalized)
             && negb (contains "noncommercial" license_normalized)
             && negb (contains "noderivatives" license_normalized)
             && negb (contains "sharealike" license_normalized))
      then true else
      if String.eqb allowed_lower "cc0"
         && (contains "cc0" license_normalized
             || contains "cc 0" license_normalized)
      then true else
      license_matches license_label_lower rest
  end.

(** The predicate on a raw label and a configured token list: line 64
    lowercases the tokens, line 97 lowercases the label, line 109
    lowercases it again and trims it. *)
Definition match_license (label : string) (allowed : list string) : bool :=
  license_matches (strip (lower (lower label))) (List.map lower allowed).

Definition default_licenses : list string :=
  ["cc0"; "by"; "free standard"; "standard"].

(** The specification's words: "lowercased, trimmed, hyphens and
    underscores replaced by spaces". *)
Definition spec_normalize (label : string) : string :=
  dash_to_space (strip (lower label)).

(** The specification's rule for the token "by", on a normalized label. *)
Definition spec_by_rule (n : string) : bool :=
  (contains "attribution" n || (contains "cc" n && contains "by" n))
  && negb (contains "nc" n || contains "nd" n || contains "sa" n
           || contains "noncommercial" n || contains "noderivatives" n
           || contains "sharealike" n).

End License.

(** ** Exceptions, catalog entries and the remote service *)

Module Data.

(** The exception classes the program can meet.  The first four are
    raised by the transport ([requests.exceptions]); [KeyboardInterrupt]
    derives from [BaseException] only. *)
Inductive exn : Type :=
| ConnectionError | Timeout | HTTPError | ChunkedEncodingError
| ValueError | OSError | AttributeError | TypeError
| KeyboardInterrupt.

(** [isinstance(e, Exception)]: what [except Exception] catches. *)
Definition is_Exception (e : exn) : bool :=
  match e with KeyboardInterrupt => false | _ => true end.

Definition transport_layer (e : exn) : bool :=
  match e with
  | ConnectionError | Timeout | HTTPError | ChunkedEncodingError => true
  | _ => false
  end.

#[local] Unset Elimination Schemes.

(** A JSON value as [response.json()] returns it.  A number is kept as
    it is written: the program has no operation on numbers.  The members
    of an object are the items of the parsed [dict], in their order and
    with distinct keys. *)
Inductive value : Type :=
| JNull
| JBool (b : bool)
| JNumber (literal : string)
| JString (s : string)
| JArray (items : list value)
| JObject (members : list (string * value)).

#[local] Set Elimination Schemes.

(** [d.get(key)] on the members of an object. *)
Fixpoint dict_get (key : string) (members : list (string * value)) : option value :=
  match members with
  | [] => None
  | (k, v) :: rest => if String.eqb k key then Some v else dict_get key rest
  end.

(** A catalog entry, a JSON object, as lines 93-96 read it.  [name] and
    [license] are what the keys hold, whatever it is, and [None] when
    the key is missing.  [uid] is [None] when the key is missing or
    holds [null], else the text its value is formatted to at lines 154
    and 181, a string being formatted to itself.  [isDownloadable] is
    the truth value of what the key holds, [False] when it is missing. *)
Record model : Type := Model {
  uid : option string;
  name : option value;
  isDownloadable : bool;
  license : option value
}.

(** The JSON body of a listing page: [data.get("results", [])] and
    [data.get("next")]. *)
Record page : Type := Page {
  results : list model;
  next : option string
}.

(** The answer to one listing request: an exception out of
    [requests.get], or a response with its status and body. *)
Inductive page_answer : Type :=
| PageRaises (e : exn)
| PageResponse (status_code : Z) (data : page).

(** A listing request: the URL and the [params] argument. *)
Record request : Type := Request {
  req_url : string;
  req_params : option (string * Z)
}.

(** [if url:] on a value that is [None] or a string. *)
Definition truthy_opt (u : option string) : bool :=
  match u with None => false | Some s => Py.truthy s end.

(** The JSON body of the download-resolution endpoint.  [source] is
    [Some v] when [data] has the key "source" and [data["source"]] has
    the key "url", with [v] its value ([None] for [null]); likewise
    [gltf]. *)
Record download_data : Type := DownloadData {
  source : option (option string);
  gltf : option (option string)
}.

Record resolve_response : Type := ResolveResponse {
  status_code : Z;
  json : exn + download_data
}.

(** The streamed download: its status, the integer read from the
    "content-length" header (0 when absent, [ValueError] when it does
    not parse), and the exception, if any, that interrupts reading the
    body and writing it to the open file. *)
Record dl_response : Type := DlResponse {
  dl_status : Z;
  content_length : exn + Z;
  body_error : option exn
}.

(** The world a run is placed in.  For the entry at position [i] of the
    catalog: the answer to its download-resolution request, the answer
    to its streamed download, and the exception, if any, with which the
    file system refuses to open its destination for writing.  Position 0
    stands for what is opened before the loop.  An entry makes each of
    these calls at most once, so any behaviour of the service and the
    disk during one run is some [world]. *)
Record world : Type := World {
  get_resolve : nat -> string -> exn + resolve_response;
  get_stream : nat -> string -> exn + dl_response;
  open_refused : nat -> string -> option exn
}.

End Data.

(** ** The catalog fetcher: [get_user_models] *)

Module Catalog.
Import Py Data.

Definition base_url : string := "https://api.sketchfab.com/v3".

Record fetched : Type := Fetched {
  fetched_models : list model;
  issued : list request;
  unread : list page_answer
}.

Inductive fetch_result : Type :=
| FetchReturns (r : fetched)
| FetchRaises (e : exn) (sent : list request)
| FetchStarved (sent : list request).

(** The [while url:] loop.  The answers are consumed in the order of
    the requests; [FetchStarved] says the description of the service
    ends before the loop does. *)
Fixpoint fetch_loop (answers : list page_answer) (url : option string)
         (params : option (string * Z)) (models : list model)
         (sent : list request) : fetch_result :=
  match url with
  | Some u =>
      if truthy u then
        match answers with
        | [] => FetchStarved sent
        | answer :: rest =>
            let sent' := sent ++ [Request u params] in
            match answer with
            | PageRaises e => FetchRaises e sent'
            | PageResponse status data =>
                if negb (status =? 200)%Z
                then FetchReturns (Fetched models sent' rest)
                else fetch_loop rest (next data) None
                                (models ++ results data) sent'
            end
        end
      else FetchReturns (Fetched models sent answers)
  | None => FetchReturns (Fetched models sent answers)
  end.

Definition get_user_models (username : string)
           (answers : list page_answer) : fetch_result :=
  fetch_loop answers (Some (base_url +:+ "/models"))
             (Some (username, 100%Z)) [] [].

(** A page that was served with status 200. *)
Definition ok (p : page) : page_answer := PageResponse 200 p.

(** The requests that walk a chain of pages: the first at [url] with
    [params], each later one at the pointer of the page before it and
    with no [params]. *)
Fixpoint page_requests (url : string) (params : option (string * Z))
         (pages : list page) : list request :=
  match pages with
  | [] => []
  | p :: rest =>
      Request url params :: page_requests (default EmptyString (next p)) None rest
  end.

Definition has_next (p : page) : Prop := truthy_opt (next p) = true.

End Catalog.

(** ** The license-gated downloader: [download_author_models] *)

Module Downloader.
Import Py License Data Catalog.

(** The per-asset network calls, and what the program reports for an
    entry. *)
Inductive call : Type :=
| Resolve (url : string)
| Transfer (url : string).

Inductive outcome : Type :=
| SkippedLicense
| NotDownloadable
| ResolveFailed (status : Z)
| NoDownloadUrl
| AlreadyExists
| Saved
| FailedWith (e : exn).

(** The three counters of the loop, the files on disk, and two logs
    kept for the properties: the network calls and the reports, each
    tagged with the position [i] of the entry ([enumerate(models, 1)]). *)
Record state : Type := State {
  successful : nat;
  failed : nat;
  skipped_license : nat;
  files : gset string;
  calls : list (nat * call);
  reports : list (nat * outcome)
}.

Definition initial (disk : gset string) : state := State 0 0 0 disk [] [].

(** Computations that thread the state and may raise. *)
Definition M (A : Type) : Type := state -> state * (exn + A).

#[global] Instance M_ret : MRet M := fun A a s => (s, inr a).

#[global] Instance M_bind : MBind M := fun A B f m s =>
  match m s with
  | (s', inl e) => (s', inl e)
  | (s', inr a) => f a s'
  end.

Definition raise {A : Type} (e : exn) : M A := fun s => (s, inl e).

Definition lift {A : Type} (r : exn + A) : M A := fun s => (s, r).

Definition modify (f : state -> state) : M unit := fun s => (f s, inr tt).

(** [try: body except Exception as e: handler(e)] *)
Definition try_except (body : M unit) (handler : exn -> M unit) : M unit :=
  fun s =>
    match body s with
    | (s', inl e) => if is_Exception e then handler e s' else (s', inl e)
    | r => r
    end.

Definition count_successful (s : state) : state :=
  State (S (successful s)) (failed s) (skipped_license s)
        (files s) (calls s) (reports s).

Definition count_failed (s : state) : state :=
  State (successful s) (S (failed s)) (skipped_license s)
        (files s) (calls s) (reports s).

Definition count_skipped (s : state) : state :=
  State (successful s) (failed s) (S (skipped_license s))
        (files s) (calls s) (reports s).

Definition log_call (c : nat * call) (s : state) : state :=
  State (successful s) (failed s) (skipped_license s)
        (files s) (calls s ++ [c]) (reports s).

Definition log_report (r : nat * outcome) (s : state) : state :=
  State (successful s) (failed s) (skipped_license s)
        (files s) (calls s) (reports s ++ [r]).

Definition create_file (path : string) (s : state) : state :=
  State (successful s) (failed s) (skipped_license s)
        ({[path]} ∪ files s) (calls s) (reports s).

Definition report (i : nat) (o : outcome) : M unit := modify (log_report (i, o)).

(** [f"{model_uid}"] *)
Definition format_uid (model_uid : option string) : string :=
  match model_uid with Some u => u | None => "None" end.

(** Line 100-101. *)
Definition keeps (c : ascii) : bool :=
  isalnum c || Ascii.eqb c " " || Ascii.eqb c "-" || Ascii.eqb c "_".

Definition sanitize (model_name : string) : string :=
  take 100 (strip (filter_str keeps model_name)).

(** Lines 176-179. *)
Definition extension (download_url : string) : string :=
  if contains "." (last_item (split "/" download_url))
  then "." +:+ first_item (split "?" (last_item (split "." download_url)))
  else ".zip".

(** The specification's words: the final path segment of the location
    is what follows the last "/" once the query string (everything from
    the first "?") is stripped; the extension is the text after the last
    dot of that segment, and ".zip" when the segment has no dot. *)
Definition final_segment (download_url : string) : string :=
  after_last "/" (before_first "?" download_url).

Definition spec_extension (download_url : string) : string :=
  let segment := final_segment download_url in
  if has_char "." segment
  then "." +:+ after_last "." segment
  else ".zip".

(** Line 181: the name of the destination file, and its path. *)
Definition filename (safe_name : string) (model_uid : option string)
           (ext : string) : string :=
  safe_name +:+ "_" +:+ format_uid model_uid +:+ ext.

Definition join (dir file : string) : string := dir +:+ "/" +:+ file.

(** Lines 96-97: [model.get("license", {})] and
    [license_info.get("label", "unknown").lower()].  Only an object has
    [get], and only a string has [lower]. *)
Definition license_label (m : model) : exn + string :=
  match license m with
  | None => inr (lower "unknown")
  | Some (JObject license_info) =>
      match dict_get "label" license_info with
      | None => inr (lower "unknown")
      | Some (JString label) => inr (lower label)
      | Some _ => inl AttributeError
      end
  | Some _ => inl AttributeError
  end.

(** Line 94: [model.get("name", "unknown")]; a value that is there is
    taken as it is. *)
Definition model_name (m : model) : value :=
  default (JString "unknown") (name m).

(** The test of line 100 on an item that is a string of any length,
    as the items of an array and the keys of an object are. *)
Definition keeps_item (c : string) : bool :=
  str_isalnum c || String.eqb c " " || String.eqb c "-" || String.eqb c "_".

(** [for c in model_name] over an array yields its items and over an
    object its keys. *)
Definition keys (members : list (string * value)) : list value :=
  List.map (fun member => JString (fst member)) members.

(** The [join] of line 100 over such items: those that pass the test
    are concatenated, and an item that is not a string has no
    [isalnum]. *)
Fixpoint join_kept (items : list value) : exn + string :=
  match items with
  | [] => inr ""
  | JString c :: rest =>
      match join_kept rest with
      | inr kept => inr (if keeps_item c then c +:+ kept else kept)
      | inl e => inl e
      end
  | _ :: _ => inl AttributeError
  end.

(** [for c in model_name] over a string yields its characters, each a
    string of length one. *)
Definition characters (s : string) : list value :=
  List.map (fun c => JString (String c EmptyString)) (list_ascii_of_string s).

(** Lines 100-101.  The characters of a string are filtered, as are
    the items of an array and the keys of an object; [null], a number
    and a boolean cannot be iterated over. *)
Definition safe_name (m : model) : exn + string :=
  match model_name m with
  | JString s => inr (sanitize s)
  | JArray items =>
      match join_kept items with
      | inr kept => inr (take 100 (strip kept))
      | inl e => inl e
      end
  | JObject members =>
      match join_kept (keys members) with
      | inr kept => inr (take 100 (strip kept))
      | inl e => inl e
      end
  | JNull | JBool _ | JNumber _ => inl TypeError
  end.

(** The sanitized name of an entry whose name can be read; the empty
    string stands in for the others, which never reach line 181. *)
Definition stem (m : model) : string :=
  match safe_name m with
  | inr n => n
  | inl _ => ""
  end.

(** Lines 165-169. *)
Definition pick_url (data : download_data) : option string :=
  match source data with
  | Some v => v
  | None => match gltf data with
            | Some v => v
            | None => None
            end
  end.

(** [dl_response.raise_for_status()] *)
Definition raise_for_status (r : dl_response) : M unit :=
  if ((400 <=? dl_status r) && (dl_status r <? 600))%Z
  then raise HTTPError else mret tt.

Section Loop.
Context (w : world) (output_path : string) (allowed_licenses : list string).

Definition requests_get_resolve (i : nat) (url : string) : M resolve_response :=
  fun s => (log_call (i, Resolve url) s, get_resolve w i url).

Definition requests_get_stream (i : nat) (url : string) : M dl_response :=
  fun s => (log_call (i, Transfer url) s, get_stream w i url).

Definition path_exists (filepath : string) : M bool :=
  fun s => (s, inr (bool_decide (filepath ∈ files s))).

Definition open_wb (i : nat) (filepath : string) : M unit :=
  fun s =>
    match open_refused w i filepath with
    | Some e => (s, inl e)
    | None => (create_file filepath s, inr tt)
    end.

(** Lines 198-207: the body is written to the open file, at once or
    chunk by chunk. *)
Definition write_body (r : dl_response) : M unit :=
  match body_error r with
  | Some e => raise e
  | None => mret tt
  end.

(** The body of the [try] (lines 153-210); each [continue] ends it. *)
Definition attempt (i : nat) (safe_name : string)
           (model_uid : option string) : M unit :=
  let url := base_url +:+ "/models/" +:+ format_uid model_uid +:+ "/download" in
  response ← requests_get_resolve i url;
  if negb (status_code response =? 200)%Z then
    report i (ResolveFailed (status_code response));;
    modify count_failed
  else
    data ← lift (json response);
    let download_url := pick_url data in
    match download_url with
    | Some download_url =>
        if truthy download_url then
          let ext := extension download_url in
          let filepath := join output_path (filename safe_name model_uid ext) in
          present ← path_exists filepath;
          if (present : bool) then
            report i AlreadyExists;;
            modify count_successful
          else
            dl_response ← requests_get_stream i download_url;
            raise_for_status dl_response;;
            total_size ← lift (content_length dl_response);
            open_wb i filepath;;
            write_body dl_response;;
            report i Saved;;
            modify count_successful
        else
          report i NoDownloadUrl;;
          modify count_failed
    | None =>
        report i NoDownloadUrl;;
        modify count_failed
    end.

(** The body of [for i, model in enumerate(models, 1)]. *)
Definition process_model (i : nat) (m : model) : M unit :=
  let model_uid := uid m in
  let is_downloadable := isDownloadable m in
  license_label ← lift (license_label m);
  safe_name ← lift (safe_name m);
  let license_label_lower := strip (lower license_label) in
  if negb (license_matches license_label_lower allowed_licenses) then
    report i SkippedLicense;;
    modify count_skipped
  else if negb is_downloadable then
    report i NotDownloadable;;
    modify count_failed
  else
    try_except (attempt i safe_name model_uid)
               (fun e => report i (FailedWith e);; modify count_failed).

Fixpoint for_each (i : nat) (models : list model) : M unit :=
  match models with
  | [] => mret tt
  | m :: rest => process_model i m;; for_each (S i) rest
  end.

End Loop.

Inductive run_result : Type :=
| ReturnsNoToken
| ReturnsNoModels
| Summary (st : state) (total : nat)
| RunRaises (e : exn)
| RunStarved.

Definition metadata_path (output_path : string) : string :=
  join output_path "models_metadata.json".

(** [download_author_models], from the token check to the summary.
    [disk] is the set of files present when the run starts.  Paths are
    joined as strings; the directory made by [mkdir] is not a file and
    is not recorded. *)
Definition download_author_models (api_token : option string)
           (username output_dir : string)
           (allowed_licenses : option (list string))
           (answers : list page_answer) (w : world)
           (disk : gset string) : run_result :=
  if negb (truthy_opt api_token) then ReturnsNoToken else
  let allowed_licenses := default default_licenses allowed_licenses in
  let allowed_licenses := List.map lower allowed_licenses in
  let output_path := join output_dir username in
  match get_user_models username answers with
  | FetchRaises e _ => RunRaises e
  | FetchStarved _ => RunStarved
  | FetchReturns r =>
      let models := fetched_models r in
      match models with
      | [] => ReturnsNoModels
      | _ =>
          let metadata_file := metadata_path output_path in
          match open_refused w 0 metadata_file with
          | Some e => RunRaises e
          | None =>
              match for_each w output_path allowed_licenses 1 models
                             (initial ({[metadata_file]} ∪ disk)) with
              | (st, inr _) => Summary st (length models)
              | (_, inl e) => RunRaises e
              end
          end
      end
  end.

(** *** Vocabulary of the properties *)

(** The counter an outcome goes to. *)
Definition is_success (o : outcome) : bool :=
  match o with AlreadyExists | Saved => true | _ => false end.

Definition is_skip (o : outcome) : bool :=
  match o with SkippedLicense => true | _ => false end.

Definition is_failure (o : outcome) : bool :=
  negb (is_success o) && negb (is_skip o).

Definition count_reports (p : outcome -> bool)
           (rs : list (nat * outcome)) : nat :=
  length (List.filter (fun r => p (snd r)) rs).

(** The counters say what the reports say. *)
Definition consistent (s : state) : Prop :=
  successful s = count_reports is_success (reports s)
  /\ failed s = count_reports is_failure (reports s)
  /\ skipped_license s = count_reports is_skip (reports s).

(** What lines 96-101 read from an entry, in the order of the source:
    the license label, then the sanitized name. *)
Definition fields (m : model) : exn + (string * string) :=
  match license_label m with
  | inl e => inl e
  | inr l =>
      match safe_name m with
      | inl e => inl e
      | inr n => inr (l, n)
      end
  end.

(** The two gates of lines 141-149, on an entry whose fields can be
    read. *)
Definition license_ok (allowed_licenses : list string) (m : model) : bool :=
  match fields m with
  | inr (l, _) => license_matches (strip (lower l)) allowed_licenses
  | inl _ => false
  end.

Definition readable (m : model) : bool :=
  match fields m with inr _ => true | inl _ => false end.

Definition resolve_url (m : model) : string :=
  base_url +:+ "/models/" +:+ format_uid (uid m) +:+ "/download".

End Downloader.

(** ** A small account, used to exercise the statements *)

Module Samples.
Import Py License Data Catalog Downloader.

(** A license object as the service writes it. *)
Definition licensed (slug label : string) : option value :=
  Some (JObject [("slug", JString slug); ("label", JString label)]).

Definition robot : model :=
  Model (Some "a1f0") (Some (JString "Robot/Model:v2*")) true
        (licensed "by" "CC Attribution").

Definition castle : model :=
  Model (Some "b2e9") (Some (JString "Castle")) true (licensed "by-nc" "CC-BY-NC").

Definition tree : model :=
  Model (Some "c3d8") (Some (JString "Tree")) false (licensed "cc0" "CC0").

Definition lamp : model :=
  Model (Some "d4c7") (Some (JString "Lamp")) true (licensed "st" "Standard").

Definition orphan : model :=
  Model (Some "e5b6") (Some (JString "Orphan")) true (Some JNull).

Definition page1 : page :=
  Page [robot; castle] (Some "https://api.sketchfab.com/v3/models?cursor=2").
Definition page2 : page :=
  Page [tree] (Some "https://api.sketchfab.com/v3/models?cursor=3").
Definition page3 : page := Page [lamp] None.

(** A service that resolves the robot to an archive and the lamp to a
    binary glTF, and serves both; a disk that accepts every file. *)
Definition resolves (i : nat) (url : string) : exn + resolve_response :=
  if String.eqb url (resolve_url robot) then
    inr (ResolveResponse 200
           (inr (DownloadData (Some (Some "https://cdn.example/a1f0/robot.zip?sig=1")) None)))
  else if String.eqb url (resolve_url lamp) then
    inr (ResolveResponse 200
           (inr (DownloadData None (Some (Some "https://cdn.example/d4c7/lamp.glb")))))
  else inr (ResolveResponse 404 (inl ValueError)).

Definition serves (i : nat) (url : string) : exn + dl_response :=
  inr (DlResponse 200 (inr 2048%Z) None).

Definition friendly : world := World resolves serves (fun _ _ => None).

Definition lamp_path : string := "downloads/artist/Lamp_d4c7.glb".
Definition robot_path : string := "downloads/artist/RobotModelv2_a1f0.zip".
Definition metadata_file : string := "downloads/artist/models_metadata.json".

(** The same service, on a disk that refuses to open the lamp's file. *)
Definition refusing_disk : world :=
  World resolves serves
        (fun _ path => if String.eqb path lamp_path then Some OSError else None).

(** The same service, interrupted from the keyboard during a transfer. *)
Definition interrupted : world :=
  World resolves (fun _ _ => inl KeyboardInterrupt) (fun _ _ => None).

(** The three pages of the account, all served. *)
Definition three_pages : list page_answer := [ok page1; ok page2; ok page3].

(** The summary of a first run on an empty disk in the friendly world. *)
Definition first_summary : state :=
  State 2 1 1
        ({[metadata_file]} ∪ {[robot_path]} ∪ {[lamp_path]})
        [(1, Resolve (resolve_url robot));
         (1, Transfer "https://cdn.example/a1f0/robot.zip?sig=1");
         (4, Resolve (resolve_url lamp));
         (4, Transfer "https://cdn.example/d4c7/lamp.glb")]
        [(1, Saved); (2, SkippedLicense); (3, NotDownloadable); (4, Saved)].

Definition token : option string := Some "0123abcd".

End Samples.

(** ** The interactive entry point: [main] *)

Module Main.
Import Py License Data Catalog Downloader.

(** How [main] ends: with one of its two error messages, with
    [EOFError] out of an [input()] that finds no line, or with the
    downloader's result.  The [requests] library is taken to be
    installed. *)
Inductive main_result : Type :=
| TokenRequired
| UsernameRequired
| InputExhausted
| Ran (r : run_result).

(** [main], lines 248-279.  [stdin] holds the lines the user types, in
    order; each [input()] reads the next one. *)
Definition main (stdin : list string) (answers : list page_answer)
           (w : world) (disk : gset string) : main_result :=
  match stdin with
  | [] => InputExhausted
  | line :: stdin =>
      let api_token := strip line in
      if negb (truthy api_token) then TokenRequired else
      match stdin with
      | [] => InputExhausted
      | line :: stdin =>
          let username := strip line in
          if negb (truthy username) then UsernameRequired else
          match stdin with
          | [] => InputExhausted
          | line :: _ =>
              let output_dir := strip line in
              let output_dir :=
                if negb (truthy output_dir) then "downloads" else output_dir in
              let allowed_licenses :=
                ["cc0"; "by"; "free standard"; "standard"] in
              Ran (download_author_models (Some api_token) username output_dir
                                          (Some allowed_licenses) answers w disk)
          end
      end
  end.

End Main.

(** ** Further vocabulary of the properties *)

Module Terms.
Import Py License Data Catalog Downloader.

(** An entry that passes both gates of lines 141-149. *)
Definition eligible (allowed_licenses : list string) (m : model) : bool :=
  license_ok allowed_licenses m && isDownloadable m.

(** The destination of an entry whose download location is [download_url]
    (lines 100-101 and 176-181). *)
Definition destination (output_path : string) (m : model)
           (download_url : string) : string :=
  join output_path
       (filename (stem m) (uid m)
                 (extension download_url)).

(** The calls in a log that carry the position [i]. *)
Definition calls_at (i : nat) (log : list (nat * call)) : list (nat * call) :=
  List.filter (fun c => Nat.eqb (fst c) i) log.

(** A streamed download that is accepted up to the opening of the file:
    no error status, a readable content length. *)
Definition opens (r : dl_response) : Prop :=
  ((400 <=? dl_status r) && (dl_status r <? 600))%Z = false
  /\ exists n, content_length r = inr n.

End Terms.

(** ** More of the small account *)

Module MoreSamples.
Import Py License Data Catalog Downloader Samples.

(** The service of [Samples], with a connection that breaks while the
    body of a download is read. *)
Definition breaking : world :=
  World resolves
        (fun _ _ => inr (DlResponse 200 (inr 2048%Z) (Some ChunkedEncodingError)))
        (fun _ _ => None).

(** A resolution whose "source" entry has a [null] URL beside a usable
    glTF archive. *)
Definition shadowed : world :=
  World (fun _ _ =>
           inr (ResolveResponse 200
                  (inr (DownloadData (Some None)
                          (Some (Some "https://cdn.example/d4c7/lamp.glb"))))))
        serves (fun _ _ => None).

(** The summary of a run in the friendly world on a disk that already
    holds the lamp's file. *)
Definition first_summary_on_lamp : state :=
  State 2 1 1
        ({[metadata_file]} ∪ {[robot_path]} ∪ {[lamp_path]})
        [(1, Resolve (resolve_url robot));
         (1, Transfer "https://cdn.example/a1f0/robot.zip?sig=1");
         (4, Resolve (resolve_url lamp))]
        [(1, Saved); (2, SkippedLicense); (3, NotDownloadable);
         (4, AlreadyExists)].

(** An entry whose name is [null], one whose license label is, and
    one whose name is an array with a number in it. *)
Definition nameless : model :=
  Model (Some "f6a5") (Some JNull) true (licensed "cc0" "CC0").

Definition unlabeled : model :=
  Model (Some "07b4") (Some (JString "Vase")) true
        (Some (JObject [("slug", JString "cc0"); ("label", JNull)])).

Definition numbered : model :=
  Model (Some "18c3") (Some (JArray [JString "Vase"; JNumber "2"])) true
        (licensed "cc0" "CC0").

(** An entry named by an array of strings: the items are filtered
    whole. *)
Definition listed : model :=
  Model (Some "29d2") (Some (JArray [JString "Vase"; JString "no 2"; JString "_"; JString "b"]))
        true (licensed "cc0" "CC0").

End MoreSamples.

(** * Properties *)

(** ** Facts about the string primitives *)

Module PyFacts.
Import Py.

Ltac each_char c := destruct c as [[] [] [] [] [] [] [] []]; vm_compute; reflexivity.

Lemma lower_char_idem c : lower_char (lower_char c) = lower_char c.
Proof. each_char c. Qed.

Lemma isspace_lower_char c : isspace (lower_char c) = isspace c.
Proof. each_char c. Qed.

Lemma map_str_map_str f g s : map_str f (map_str g s) = map_str (fun c => f (g c)) s.
Proof. induction s as [|c s IH]; simpl; [reflexivity | now rewrite IH]. Qed.

Lemma map_str_ext f g s : (forall c, f c = g c) -> map_str f s = map_str g s.
Proof. intros E. induction s as [|c s IH]; simpl; [reflexivity | now rewrite E, IH]. Qed.

Lemma lower_idem s : lower (lower s) = lower s.
Proof.
  unfold lower. rewrite map_str_map_str.
  apply map_str_ext, lower_char_idem.
Qed.

Lemma lstrip_map f s :
  (forall c, isspace (f c) = isspace c) ->
  lstrip (map_str f s) = map_str f (lstrip s).
Proof.
  intros E. induction s as [|c s IH]; simpl; [reflexivity|].
  rewrite E. destruct (isspace c); [exact IH | reflexivity].
Qed.

Lemma rstrip_map f s :
  (forall c, isspace (f c) = isspace c) ->
  rstrip (map_str f s) = map_str f (rstrip s).
Proof.
  intros E. induction s as [|c s IH]; simpl; [reflexivity|].
  rewrite IH, E.
  destruct (rstrip s); simpl; [destruct (isspace c)|]; reflexivity.
Qed.

Lemma lower_strip s : lower (strip s) = strip (lower s).
Proof.
  unfold strip, lower.
  rewrite lstrip_map, rstrip_map by apply isspace_lower_char.
  reflexivity.
Qed.

End PyFacts.

(** ** The license-matching predicate *)

Module LicenseFacts.
Import Py License PyFacts.

Lemma dash_to_space_map s : dash_to_space s = map_str d2s_char s.
Proof. unfold dash_to_space, replace. now rewrite map_str_map_str. Qed.

Lemma d2s_char_idem c : d2s_char (d2s_char c) = d2s_char c.
Proof. each_char c. Qed.

Lemma d2s_char_lower c : lower_char (d2s_char c) = d2s_char (lower_char c).
Proof. each_char c. Qed.

Lemma dash_to_space_idem s : dash_to_space (dash_to_space s) = dash_to_space s.
Proof.
  rewrite !dash_to_space_map, map_str_map_str.
  apply map_str_ext, d2s_char_idem.
Qed.

Lemma lower_dash_to_space s : lower (dash_to_space s) = dash_to_space (lower s).
Proof.
  rewrite !dash_to_space_map. unfold lower. rewrite !map_str_map_str.
  apply map_str_ext, d2s_char_lower.
Qed.

(** The label the loop works on is the trimmed lowercase label. *)
Lemma label_lower_once label : strip (lower (lower label)) = strip (lower label).
Proof. now rewrite lower_idem. Qed.

Lemma spec_normalize_lower label :
  lower (lower (spec_normalize label)) = spec_normalize label.
Proof.
  unfold spec_normalize.
  now rewrite !lower_dash_to_space, !lower_strip, !lower_idem.
Qed.

(** Replacing hyphens and underscores in the label beforehand does not
    change the verdict of the loop: whatever the exact comparison
    decides, the comparison of the normalized strings decides too. *)
Lemma license_matches_dash_to_space s allowed :
  license_matches (dash_to_space s) allowed = license_matches s allowed.
Proof.
  induction allowed as [|a rest IH]; [reflexivity|].
  cbn [license_matches]. rewrite dash_to_space_idem, IH.
  set (al := strip (lower a)).
  destruct (String.eqb_spec (dash_to_space s) (dash_to_space al)) as [E|N].
  - destruct (String.eqb (dash_to_space s) al), (String.eqb s al); reflexivity.
  - destruct (String.eqb_spec (dash_to_space s) al) as [E1|_].
    + exfalso. apply N. rewrite <- E1. now rewrite dash_to_space_idem.
    + destruct (String.eqb_spec s al) as [E2|_]; [|reflexivity].
      exfalso. apply N. now rewrite E2.
Qed.

End LicenseFacts.

Import Py License PyFacts LicenseFacts.

(** C1, as stated, fails on the label "by": the exact comparison of the
    first rule accepts it, although it contains neither "attribution"
    nor "cc". *)
Lemma by_token_accepts_bare_by :
  match_license "by" ["by"] = true /\
  spec_by_rule (spec_normalize "by") = false.
Proof. split; vm_compute; reflexivity. Qed.

(** C1 (amended): with the single allowed token "by" the predicate
    returns true exactly when the normalized label is "by" itself, or
    it contains "attribution" or both "cc" and "by" and none of "nc",
    "nd", "sa", "noncommercial", "noderivatives", "sharealike"; on the
    three labels of the specification it answers true, false, false. *)
Theorem by_token_match_characterised :
  (forall label,
      match_license label ["by"]
      = String.eqb (spec_normalize label) "by"
        || spec_by_rule (spec_normalize label))
  /\ match_license "CC Attribution" ["by"] = true
  /\ match_license "CC-BY-SA 4.0" ["by"] = false
  /\ match_license "CC-BY-NC" ["by"] = false.
Proof.
  split; [|repeat split; vm_compute; reflexivity].
  intros label. unfold match_license, spec_normalize.
  rewrite label_lower_once.
  set (s := strip (lower label)).
  change (List.map lower ["by"]) with ["by"].
  cbn [license_matches].
  change (strip (lower "by")) with "by".
  change (dash_to_space "by") with "by".
  change (String.eqb "by" "by") with true.
  change (String.eqb "by" "cc0") with false.
  unfold spec_by_rule. cbn [andb].
  destruct (String.eqb_spec s "by") as [E|_].
  - rewrite E. reflexivity.
  - destruct (String.eqb (dash_to_space s) "by"); [reflexivity|].
    cbn [orb].
    destruct (contains "attribution" (dash_to_space s)
              || contains "cc" (dash_to_space s) && contains "by" (dash_to_space s));
      cbn [andb]; [|reflexivity].
    destruct (contains "nc" (dash_to_space s)), (contains "nd" (dash_to_space s)),
      (contains "sa" (dash_to_space s)), (contains "noncommercial" (dash_to_space s)),
      (contains "noderivatives" (dash_to_space s)), (contains "sharealike" (dash_to_space s));
      reflexivity.
Qed.

(** C2, as stated, fails on the label "-by-": trimming happens before
    the hyphens become spaces, so the label itself does not match
    "by", while its normalized form " by " is trimmed to "by" and does. *)
Lemma normalization_changes_verdict :
  spec_normalize "-by-" = " by " /\
  match_license "-by-" ["by"] = false /\
  match_license (spec_normalize "-by-") ["by"] = true.
Proof. repeat split; vm_compute; reflexivity. Qed.

(** C2 (amended): for every label and token list the predicate gives
    the same answer on the label and on its normalized form, provided
    the normalized form has no leading or trailing whitespace (the
    lowercased, trimmed label neither starts nor ends with a hyphen or
    an underscore). *)
Theorem match_invariant_under_normalization label allowed :
  strip (spec_normalize label) = spec_normalize label ->
  match_license label allowed = match_license (spec_normalize label) allowed.
Proof.
  intros Htrim. unfold match_license.
  rewrite spec_normalize_lower, Htrim, label_lower_once.
  unfold spec_normalize.
  now rewrite license_matches_dash_to_space.
Qed.

Lemma match_invariant_under_normalization_witness :
  strip (spec_normalize " CC-BY_4.0") = spec_normalize " CC-BY_4.0" /\
  match_license " CC-BY_4.0" default_licenses
  = match_license (spec_normalize " CC-BY_4.0") default_licenses.
Proof.
  split; [vm_compute; reflexivity|].
  apply (match_invariant_under_normalization " CC-BY_4.0" default_licenses).
  vm_compute; reflexivity.
Defined.


(** ** Splitting, the extension and the file name *)

Module SplitFacts.
Import Py.

Lemma has_char_none_split c s : has_char c s = false -> split c s = [s].
Proof.
  induction s as [|a s IH]; simpl; [reflexivity|].
  intros H. apply orb_false_iff in H as [Ha Hs].
  rewrite Ha, (IH Hs). reflexivity.
Qed.

Lemma has_char_split_two c s :
  has_char c s = true -> exists h x t, split c s = h :: x :: t.
Proof.
  induction s as [|a s IH]; simpl; [discriminate|].
  intros H. destruct (Ascii.eqb a c) eqn:Ea.
  - destruct (has_char c s) eqn:Hs.
    + destruct (IH eq_refl) as (h & x & t & E). rewrite E. eauto.
    + rewrite (has_char_none_split _ _ Hs). eauto.
  - simpl in H. destruct (IH H) as (h & x & t & E). rewrite E. eauto.
Qed.

Lemma after_last_none c s : has_char c s = false -> after_last c s = s.
Proof.
  destruct s as [|a s]; simpl; [reflexivity|].
  intros H. apply orb_false_iff in H as [Ha Hs]. now rewrite Hs, Ha.
Qed.

(** [s.split(c)[-1]] is the text after the last [c]. *)
Lemma last_item_split c s : last_item (split c s) = after_last c s.
Proof.
  unfold last_item. induction s as [|a s IH]; [reflexivity|].
  cbn [split after_last].
  destruct (has_char c s) eqn:Hs.
  - destruct (has_char_split_two _ _ Hs) as (h & x & t & E).
    rewrite E in IH |- *. rewrite <- IH.
    destruct (Ascii.eqb a c); reflexivity.
  - rewrite (has_char_none_split _ _ Hs).
    destruct (Ascii.eqb a c); reflexivity.
Qed.

(** [s.split(c)[0]] is the text before the first [c]. *)
Lemma first_item_split c s : first_item (split c s) = before_first c s.
Proof.
  unfold first_item. destruct s as [|a s]; [reflexivity|].
  revert a. induction s as [|b s IH]; intros a.
  - simpl. destruct (Ascii.eqb a c); reflexivity.
  - cbn [split before_first] in IH |- *.
    destruct (Ascii.eqb a c); [reflexivity|].
    specialize (IH b).
    destruct (Ascii.eqb b c); [reflexivity|].
    destruct (split c s) as [|h t]; simpl in IH |- *; now rewrite <- IH.
Qed.

(** ["." in s] on a one-character pattern is character membership. *)
Lemma contains_char c s : contains (String c EmptyString) s = has_char c s.
Proof.
  induction s as [|a s IH]; [reflexivity|].
  cbn [contains has_char String.prefix]. rewrite IH.
  destruct (Ascii.ascii_dec c a) as [->|N].
  - rewrite Ascii.eqb_refl. now destruct s.
  - replace (Ascii.eqb a c) with false
      by (symmetry; apply Ascii.eqb_neq; congruence).
    reflexivity.
Qed.

Lemma has_char_after_last d c s :
  has_char d (after_last c s) = true -> has_char d s = true.
Proof.
  induction s as [|a s IH]; simpl; [discriminate|].
  destruct (has_char c s).
  - intros H. rewrite (IH H). apply orb_true_r.
  - destruct (Ascii.eqb a c); simpl; intros H; [rewrite H; apply orb_true_r | exact H].
Qed.

Lemma after_last_free c s : has_char c (after_last c s) = false.
Proof.
  induction s as [|a s IH]; simpl; [reflexivity|].
  destruct (has_char c s) eqn:Hs; [exact IH|].
  destruct (Ascii.eqb a c) eqn:Ea; simpl; [exact Hs | now rewrite Ea, Hs].
Qed.

Lemma has_char_before_first d c s :
  has_char d (before_first c s) = true -> has_char d s = true.
Proof.
  induction s as [|a s IH]; simpl; [discriminate|].
  destruct (Ascii.eqb a c); simpl; [discriminate|].
  intros H. apply orb_true_iff in H as [H|H]; [now rewrite H|].
  rewrite (IH H). apply orb_true_r.
Qed.

(** The last [d] of a string lies in its final [c]-segment as soon as
    that segment has a [d]. *)
Lemma after_last_segment d c s :
  has_char d (after_last c s) = true ->
  after_last d s = after_last d (after_last c s).
Proof.
  induction s as [|a s IH]; [discriminate|].
  cbn [after_last]. destruct (has_char c s) eqn:Hc.
  - intros H. rewrite (has_char_after_last _ _ _ H). now apply IH.
  - destruct (Ascii.eqb a c); [|reflexivity].
    intros H. now rewrite H.
Qed.

Lemma has_char_app c s t :
  has_char c (s +:+ t) = has_char c s || has_char c t.
Proof.
  induction s as [|a s IH]; simpl; [reflexivity|].
  rewrite IH. apply orb_assoc.
Qed.

Lemma append_cancel_l s a b : s +:+ a = s +:+ b -> a = b.
Proof. induction s as [|c s IH]; simpl; [auto|]. intros H. injection H as H. auto. Qed.

(** A name is split from its extension at the last dot. *)
Lemma append_dot_inj c a b t1 t2 :
  has_char c t1 = false -> has_char c t2 = false ->
  a +:+ String c t1 = b +:+ String c t2 -> a = b.
Proof.
  intros H1 H2. revert b.
  induction a as [|x a IH]; intros [|y b]; simpl; intros E.
  - reflexivity.
  - injection E as _ E. rewrite E, has_char_app in H1. simpl in H1.
    rewrite Ascii.eqb_refl, orb_true_r in H1. discriminate.
  - injection E as _ E. rewrite <- E, has_char_app in H2. simpl in H2.
    rewrite Ascii.eqb_refl, orb_true_r in H2. discriminate.
  - injection E as -> E. f_equal. now apply IH.
Qed.

Lemma all_chars_filter p s : all_chars p (filter_str p s) = true.
Proof.
  induction s as [|a s IH]; simpl; [reflexivity|].
  destruct (p a) eqn:Ha; simpl; [now rewrite Ha|exact IH].
Qed.

Lemma all_chars_lstrip p s : all_chars p s = true -> all_chars p (lstrip s) = true.
Proof.
  induction s as [|a s IH]; simpl; [auto|].
  intros H. destruct (isspace a); [|exact H].
  apply andb_true_iff in H as [_ H]. auto.
Qed.

Lemma all_chars_rstrip p s : all_chars p s = true -> all_chars p (rstrip s) = true.
Proof.
  induction s as [|a s IH]; simpl; [auto|].
  intros H. apply andb_true_iff in H as [Ha H]. specialize (IH H).
  destruct (rstrip s); [destruct (isspace a)|]; simpl in *; rewrite ?Ha; auto.
Qed.

Lemma all_chars_take p n s : all_chars p s = true -> all_chars p (take n s) = true.
Proof.
  revert s. induction n as [|n IH]; intros [|a s]; simpl; auto.
  intros H. apply andb_true_iff in H as [Ha H]. rewrite Ha. simpl. auto.
Qed.

Lemma length_take n s : String.length (take n s) <= n.
Proof.
  revert s. induction n as [|n IH]; intros [|a s]; simpl; try lia.
  specialize (IH s). lia.
Qed.

End SplitFacts.

Import Py Data Downloader SplitFacts.

Lemma extension_shape download_url :
  exists t, extension download_url = String "." t /\ has_char "." t = false.
Proof.
  unfold extension. destruct (contains "." _).
  - eexists. split; [reflexivity|].
    rewrite first_item_split, last_item_split.
    destruct (has_char "." (before_first "?" (after_last "." download_url))) eqn:H;
      [|reflexivity].
    apply has_char_before_first in H. now rewrite after_last_free in H.
  - exists "zip". split; reflexivity.
Qed.

(** The extension as the code computes it, in terms of the text after
    the last "/" of the whole location string. *)
Lemma extension_of_tail download_url :
  extension download_url
  = if has_char "." (after_last "/" download_url)
    then "." +:+ before_first "?" (after_last "." (after_last "/" download_url))
    else ".zip".
Proof.
  unfold extension.
  rewrite contains_char, first_item_split, !last_item_split.
  destruct (has_char "." (after_last "/" download_url)) eqn:H; [|reflexivity].
  now rewrite (after_last_segment _ _ _ H).
Qed.

Lemma after_last_app c a b :
  has_char c b = false -> after_last c (a +:+ b) = after_last c a +:+ b.
Proof.
  intros Hb. induction a as [|x a IH]; simpl.
  - now apply after_last_none.
  - rewrite has_char_app, Hb, orb_false_r.
    destruct (has_char c a); [exact IH|].
    destruct (Ascii.eqb x c); reflexivity.
Qed.

Lemma before_first_none c s : has_char c s = false -> before_first c s = s.
Proof.
  induction s as [|x s IH]; simpl; [reflexivity|].
  intros H. apply orb_false_iff in H as [Hx Hs]. now rewrite Hx, IH.
Qed.

Lemma before_first_app c a b :
  has_char c a = false -> before_first c (a +:+ String c b) = a.
Proof.
  induction a as [|x a IH]; simpl.
  - now rewrite Ascii.eqb_refl.
  - intros H. apply orb_false_iff in H as [Hx Ha]. now rewrite Hx, IH.
Qed.

Lemma no_char_after_last d c s :
  has_char d s = false -> has_char d (after_last c s) = false.
Proof.
  intros H. destruct (has_char d (after_last c s)) eqn:E; [|reflexivity].
  apply has_char_after_last in E. congruence.
Qed.

(** C7 (the code at the failing inputs): when the query string of the
    download location holds a dot or a slash, the extension is not the
    one of the final path segment.  For ".../a/model.glb?v=1.2" the
    segment is "model.glb" and the code gives ".2"; for
    ".../a/model?file=x.glb" the segment "model" has no dot and the code
    gives ".glb" instead of the default; for ".../a/model.glb?next=/b"
    the code gives the default ".zip". *)
Theorem extension_misreads_query :
  (final_segment "https://cdn.example/a/model.glb?v=1.2" = "model.glb"
   /\ spec_extension "https://cdn.example/a/model.glb?v=1.2" = ".glb"
   /\ extension "https://cdn.example/a/model.glb?v=1.2" = ".2")
  /\ (final_segment "https://cdn.example/a/model?file=x.glb" = "model"
      /\ spec_extension "https://cdn.example/a/model?file=x.glb" = ".zip"
      /\ extension "https://cdn.example/a/model?file=x.glb" = ".glb")
  /\ (final_segment "https://cdn.example/a/model.glb?next=/b" = "model.glb"
      /\ spec_extension "https://cdn.example/a/model.glb?next=/b" = ".glb"
      /\ extension "https://cdn.example/a/model.glb?next=/b" = ".zip").
Proof.
  split; [|split]; (split; [|split]); vm_compute; reflexivity.
Qed.

(** X21: when the download location has no query string, or one that
    holds neither a dot nor a slash, the extension the code derives is
    the one of the final path segment: the text after the segment's last
    dot, and ".zip" when the segment has no dot. *)
Theorem extension_right_on_plain_query path query :
  has_char "?" path = false ->
  has_char "." query = false ->
  has_char "/" query = false ->
  extension path = spec_extension path
  /\ extension (path +:+ "?" +:+ query) = spec_extension (path +:+ "?" +:+ query).
Proof.
  intros Hp Hdot Hslash.
  assert (Hq : has_char "?" (after_last "." (after_last "/" path)) = false)
    by (do 2 apply no_char_after_last; exact Hp).
  split.
  - rewrite extension_of_tail. unfold spec_extension, final_segment.
    rewrite (before_first_none "?" path Hp).
    destruct (has_char "." (after_last "/" path)); [|reflexivity].
    now rewrite (before_first_none _ _ Hq).
  - change (path +:+ "?" +:+ query) with (path +:+ String "?" query).
    rewrite extension_of_tail. unfold spec_extension, final_segment.
    rewrite (before_first_app "?" path query Hp).
    assert (Hs : has_char "/" (String "?" query) = false) by (simpl; exact Hslash).
    assert (Hd : has_char "." (String "?" query) = false) by (simpl; exact Hdot).
    rewrite (after_last_app "/" path _ Hs), has_char_app, Hd, orb_false_r.
    destruct (has_char "." (after_last "/" path)); [|reflexivity].
    rewrite (after_last_app "." _ _ Hd).
    now rewrite (before_first_app "?" _ query Hq).
Qed.

Lemma extension_right_on_plain_query_witness :
  extension "https://cdn.example/a.b/file.tar.gz?sig=x&Expires=1600000000" = ".gz"
  /\ spec_extension "https://cdn.example/a.b/file.tar.gz?sig=x&Expires=1600000000"
     = ".gz".
Proof.
  destruct (extension_right_on_plain_query
              "https://cdn.example/a.b/file.tar.gz" "sig=x&Expires=1600000000"
              eq_refl eq_refl eq_refl) as [_ E].
  split; [reflexivity|]. etrans; [symmetry; exact E | reflexivity].
Defined.

(** C5: for every display name the sanitized name consists of
    alphanumerics, spaces, hyphens and underscores only and has at most
    100 characters; the file name is the sanitized name, an underscore,
    the identifier and the extension; and two entries with the same
    sanitized name and different identifiers get different file names,
    whatever their download locations. *)
Theorem sanitized_name_and_filename model_name :
  all_chars keeps (sanitize model_name) = true
  /\ String.length (sanitize model_name) <= 100
  /\ (forall model_uid ext,
        filename (sanitize model_name) model_uid ext
        = sanitize model_name +:+ "_" +:+ format_uid model_uid +:+ ext)
  /\ (forall other_name uid1 uid2 url1 url2,
        sanitize other_name = sanitize model_name ->
        format_uid uid1 <> format_uid uid2 ->
        forall output_path,
          join output_path (filename (sanitize model_name) uid1 (extension url1))
          <> join output_path (filename (sanitize other_name) uid2 (extension url2))).
Proof.
  split; [|split; [|split]].
  - unfold sanitize, strip.
    apply all_chars_take, all_chars_rstrip, all_chars_lstrip, all_chars_filter.
  - apply length_take.
  - reflexivity.
  - intros other uid1 uid2 url1 url2 -> Hne output_path E. apply Hne.
    apply append_cancel_l, (append_cancel_l "/") in E.
    destruct (extension_shape url1) as (t1 & E1 & F1).
    destruct (extension_shape url2) as (t2 & E2 & F2).
    rewrite E1, E2 in E. unfold filename in E.
    apply append_cancel_l, (append_cancel_l "_") in E.
    exact (append_dot_inj _ _ _ _ _ F1 F2 E).
Qed.

Lemma sanitized_name_and_filename_witness :
  sanitize "Robot/Model:v2*" = "RobotModelv2"
  /\ join "downloads/artist"
          (filename (sanitize "Robot/Model:v2*") (Some "ab12") (extension "https://h/x.zip"))
     <> join "downloads/artist"
          (filename (sanitize "RobotModelv2") (Some "ab13") (extension "https://h/y.zip"))
  /\ sanitize "***" = ""
  /\ join "downloads/artist"
          (filename (sanitize "***") (Some "ab12") (extension "https://h/x.zip"))
     <> join "downloads/artist"
          (filename (sanitize "/") (Some "ab13") (extension "https://h/x.zip")).
Proof.
  split; [reflexivity|]. split; [|split; [reflexivity|]].
  - apply (proj2 (proj2 (proj2 (sanitized_name_and_filename "Robot/Model:v2*")))).
    + reflexivity.
    + discriminate.
  - apply (proj2 (proj2 (proj2 (sanitized_name_and_filename "***")))).
    + reflexivity.
    + discriminate.
Defined.

(** ** The catalog fetcher *)

Module CatalogFacts.
Import Py Data Catalog.

(** The loop ends as soon as the pointer is absent or empty. *)
Lemma fetch_loop_done answers url params models sent :
  truthy_opt url = false ->
  fetch_loop answers url params models sent
  = FetchReturns (Fetched models sent answers).
Proof.
  intros H. destruct url as [u|]; simpl in H.
  - destruct answers; simpl; now rewrite H.
  - destruct answers; reflexivity.
Qed.

Lemma has_next_pointer p :
  has_next p -> exists u, next p = Some u /\ truthy u = true.
Proof. unfold has_next. destruct (next p) as [u|]; simpl; [eauto | discriminate]. Qed.

(** One successful page: its entries are appended and the loop goes on
    at its pointer. *)
Lemma fetch_loop_ok p rest u params models sent :
  truthy u = true ->
  fetch_loop (ok p :: rest) (Some u) params models sent
  = fetch_loop rest (next p) None (models ++ results p) (sent ++ [Request u params]).
Proof. intros H. simpl. now rewrite H. Qed.

Lemma fetch_loop_chain init last rest u params models sent :
  truthy u = true ->
  Forall has_next init ->
  truthy_opt (next last) = false ->
  fetch_loop (List.map ok (init ++ [last]) ++ rest) (Some u) params models sent
  = FetchReturns
      (Fetched (models ++ concat (List.map results (init ++ [last])))
               (sent ++ page_requests u params (init ++ [last]))
               rest).
Proof.
  intros Hu Hinit Hlast. revert u params models sent Hu.
  induction Hinit as [|p init Hp _ IH]; intros u params models sent Hu.
  - cbn [app List.map]. rewrite fetch_loop_ok by exact Hu.
    rewrite fetch_loop_done by exact Hlast.
    simpl. now rewrite app_nil_r.
  - cbn [app List.map]. rewrite fetch_loop_ok by exact Hu.
    destruct (has_next_pointer p Hp) as (u' & E & Hu').
    rewrite E, (IH u' None _ _ Hu').
    cbn [concat List.map page_requests]. rewrite E. simpl.
    now rewrite <- !app_assoc.
Qed.

Lemma fetch_loop_break good status data rest u params models sent :
  truthy u = true ->
  Forall has_next good ->
  status <> 200%Z ->
  fetch_loop (List.map ok good ++ PageResponse status data :: rest)
             (Some u) params models sent
  = FetchReturns
      (Fetched (models ++ concat (List.map results good))
               (sent ++ page_requests u params (good ++ [data]))
               rest).
Proof.
  intros Hu Hgood Hst. revert u params models sent Hu.
  induction Hgood as [|p good Hp _ IH]; intros u params models sent Hu.
  - simpl. rewrite Hu.
    destruct (Z.eqb_spec status 200) as [E|_]; [contradiction|].
    simpl. now rewrite app_nil_r.
  - cbn [app List.map]. rewrite fetch_loop_ok by exact Hu.
    destruct (has_next_pointer p Hp) as (u' & E & Hu').
    rewrite E, (IH u' None _ _ Hu').
    cbn [concat List.map page_requests app]. rewrite E. simpl.
    now rewrite <- !app_assoc.
Qed.

Lemma length_page_requests u params pages :
  length (page_requests u params pages) = length pages.
Proof.
  revert u params. induction pages as [|p pages IH]; intros u params; simpl;
    [reflexivity | now rewrite IH].
Qed.

End CatalogFacts.

Import Py Data Catalog CatalogFacts.

(** C3: for N successfully served pages, of which all but the last
    carry a next-page pointer and the last carries none, the fetcher
    returns the concatenation of the N entry lists in order, after
    exactly N requests: the first at the listing URL with the account
    and page size, each later one at the pointer of the page before. *)
Theorem pagination_walks_all_pages username init last rest :
  Forall has_next init ->
  truthy_opt (next last) = false ->
  exists r,
    get_user_models username (List.map ok (init ++ [last]) ++ rest) = FetchReturns r
    /\ fetched_models r = concat (List.map results (init ++ [last]))
    /\ issued r = page_requests (base_url +:+ "/models") (Some (username, 100%Z))
                                (init ++ [last])
    /\ length (issued r) = length (init ++ [last])
    /\ unread r = rest.
Proof.
  intros Hinit Hlast. eexists. split.
  - unfold get_user_models. apply fetch_loop_chain; [reflexivity | exact Hinit | exact Hlast].
  - simpl. rewrite length_page_requests. auto.
Qed.

(** C4: when a page request is answered with a status other than 200
    after any number of successful pages, the fetcher stops there: it
    returns (and does not raise) exactly the entries of the pages
    before, having issued no request after the failed one. *)
Theorem pagination_stops_at_failure username good status data rest :
  Forall has_next good ->
  status <> 200%Z ->
  exists r,
    get_user_models username
      (List.map ok good ++ PageResponse status data :: rest) = FetchReturns r
    /\ fetched_models r = concat (List.map results good)
    /\ length (issued r) = S (length good)
    /\ unread r = rest.
Proof.
  intros Hgood Hst. eexists. split.
  - unfold get_user_models. apply fetch_loop_break; [reflexivity | exact Hgood | exact Hst].
  - simpl. rewrite length_page_requests, length_app. simpl.
    repeat split; lia.
Qed.

Lemma pagination_walks_all_pages_witness :
  Forall has_next [Samples.page1; Samples.page2]
  /\ truthy_opt (next Samples.page3) = false
  /\ exists r,
      get_user_models "artist"
        (List.map ok ([Samples.page1; Samples.page2] ++ [Samples.page3]) ++ [])
      = FetchReturns r
      /\ fetched_models r
         = [Samples.robot; Samples.castle; Samples.tree; Samples.lamp]
      /\ length (issued r) = 3.
Proof.
  assert (H : Forall has_next [Samples.page1; Samples.page2])
    by (repeat constructor).
  split; [exact H|]. split; [reflexivity|].
  destruct (pagination_walks_all_pages "artist"
              [Samples.page1; Samples.page2] Samples.page3 [] H eq_refl)
    as (r & Hr & Hm & _ & Hn & _).
  exists r. split; [exact Hr|]. split; [exact Hm | exact Hn].
Defined.

Lemma pagination_stops_at_failure_witness :
  Forall has_next [Samples.page1]
  /\ 503%Z <> 200%Z
  /\ exists r,
      get_user_models "artist"
        (List.map ok [Samples.page1]
           ++ PageResponse 503 (Page [] None) :: [ok Samples.page3])
      = FetchReturns r
      /\ fetched_models r = [Samples.robot; Samples.castle]
      /\ length (issued r) = 2
      /\ unread r = [ok Samples.page3].
Proof.
  assert (H : Forall has_next [Samples.page1]) by (repeat constructor).
  assert (N : 503%Z <> 200%Z) by discriminate.
  split; [exact H|]. split; [exact N|].
  destruct (pagination_stops_at_failure "artist" [Samples.page1] 503
              (Page [] None) [ok Samples.page3] H N)
    as (r & Hr & Hm & Hn & Hu).
  exists r. split; [exact Hr|]. split; [exact Hm|]. split; [exact Hn | exact Hu].
Defined.


(** ** The download loop *)

Module DownloaderFacts.
Import Py License Data Catalog Downloader.

Ltac unfold_item :=
  unfold process_model, try_except, attempt, requests_get_resolve,
    requests_get_stream, path_exists, open_wb, write_body, raise_for_status,
    report, modify, lift, raise, mbind, mret, M_bind, M_ret,
    license_ok, readable, fields in *.

Ltac flip_negb :=
  repeat match goal with
         | H : negb ?b = _ |- _ =>
             destruct b eqn:?; simpl in H; try discriminate H; clear H
         end.

Ltac gate_contra :=
  let Hg := fresh in
  intros Hg; simpl in Hg;
  first [ discriminate Hg
        | apply andb_false_iff in Hg; destruct Hg; congruence ].

Ltac decided :=
  repeat match goal with
         | H : bool_decide _ = true |- _ => apply bool_decide_eq_true in H
         | H : bool_decide _ = false |- _ => apply bool_decide_eq_false in H
         end.

(** A file the first pass found or created is on the disk of the second. *)
Ltac on_disk :=
  match goal with
  | Hn : ?p ∉ files ?s, Hsub : _ ⊆ files ?s |- _ =>
      exfalso; apply Hn, Hsub;
      first [ assumption
            | apply elem_of_union_l, elem_of_singleton; reflexivity ]
  end.

Ltac rerun_parts :=
  repeat split; simpl;
  first [ done
        | now rewrite app_nil_r
        | now rewrite <- app_assoc
        | intros; discriminate
        | let Hu := fresh in
          intros ? Hu; apply list_elem_of_singleton in Hu; discriminate Hu ].

Lemma count_reports_app p rs rs' :
  count_reports p (rs ++ rs') = count_reports p rs + count_reports p rs'.
Proof. unfold count_reports. now rewrite List.filter_app, length_app. Qed.

Lemma count_reports_one p i o :
  count_reports p [(i, o)] = if p o then 1 else 0.
Proof. unfold count_reports. simpl. now destruct (p o). Qed.

Lemma count_reports_partition rs :
  count_reports is_success rs + count_reports is_failure rs
  + count_reports is_skip rs = length rs.
Proof.
  unfold count_reports. induction rs as [|[i o] rs IH]; [reflexivity|].
  destruct o; simpl in *; lia.
Qed.

Lemma consistent_initial disk : consistent (initial disk).
Proof. repeat split. Qed.

(** What reading the fields of an entry can raise. *)
Lemma license_label_raise m e : license_label m = inl e -> e = AttributeError.
Proof. unfold license_label. intros H. repeat case_match; congruence. Qed.

Lemma join_kept_raise items e : join_kept items = inl e -> e = AttributeError.
Proof.
  induction items as [|v items IH]; simpl; [discriminate|].
  destruct v; try congruence.
  destruct (join_kept items) as [e0|kept]; [|discriminate].
  intros H. injection H as <-. now apply IH.
Qed.

Lemma join_kept_keys members : exists kept, join_kept (keys members) = inr kept.
Proof.
  induction members as [|[k v] members [kept IH]]; simpl; [now exists ""|].
  rewrite IH. eauto.
Qed.

(** On the characters of a string the filter of line 100 is
    [filter_str keeps], so that the three cases of [safe_name] that
    return are one line of code. *)
Lemma keeps_item_character c : keeps_item (String c EmptyString) = keeps c.
Proof.
  unfold keeps_item, keeps, str_isalnum. simpl. rewrite andb_true_r.
  now destruct (Ascii.eqb c " "), (Ascii.eqb c "-"), (Ascii.eqb c "_").
Qed.

Lemma join_kept_characters s :
  join_kept (characters s) = inr (filter_str keeps s).
Proof.
  unfold characters. induction s as [|c s IH]; [reflexivity|].
  cbn [list_ascii_of_string List.map join_kept filter_str].
  rewrite IH, keeps_item_character. now destruct (keeps c).
Qed.

Lemma safe_name_string m s :
  name m = Some (JString s) ->
  safe_name m
  = match join_kept (characters s) with
    | inr kept => inr (take 100 (strip kept))
    | inl e => inl e
    end.
Proof.
  intros H. unfold safe_name, model_name. rewrite H, join_kept_characters.
  reflexivity.
Qed.

Lemma safe_name_raise m e :
  safe_name m = inl e -> e = AttributeError \/ e = TypeError.
Proof.
  unfold safe_name. destruct (model_name m) as [|b|n|t|items|members];
    try (intros H; injection H as <-; now right); [discriminate| |].
  - destruct (join_kept items) as [e0|kept] eqn:Hj; [|discriminate].
    intros H. injection H as <-. left. exact (join_kept_raise _ _ Hj).
  - destruct (join_kept_keys members) as [kept ->]. discriminate.
Qed.

Lemma fields_raise m e :
  fields m = inl e -> e = AttributeError \/ e = TypeError.
Proof.
  unfold fields. destruct (license_label m) as [e0|l] eqn:Hl.
  - intros H. injection H as <-. left. exact (license_label_raise _ _ Hl).
  - destruct (safe_name m) as [e0|n] eqn:Hn; [|discriminate].
    intros H. injection H as <-. exact (safe_name_raise _ _ Hn).
Qed.

Section Items.
Context (w : world) (output_path : string) (allowed_licenses : list string).

Local Abbreviation process_model := (process_model w output_path allowed_licenses).
Local Abbreviation for_each := (for_each w output_path allowed_licenses).

Lemma for_each_cons i m rest s :
  for_each i (m :: rest) s
  = match process_model i m s with
    | (s1, inl e) => (s1, inl e)
    | (s1, inr _) => for_each (S i) rest s1
    end.
Proof. reflexivity. Qed.

(** *** One entry *)

Lemma process_model_files i m s s' r :
  process_model i m s = (s', r) -> files s ⊆ files s'.
Proof.
  unfold_item. intros H.
  repeat case_match; simplify_eq; simpl; set_solver.
Qed.

Lemma process_model_consistent i m s s' r :
  process_model i m s = (s', r) -> consistent s -> consistent s'.
Proof.
  unfold_item. unfold consistent. intros H (Hs & Hf & Hk).
  repeat case_match; simplify_eq; simpl;
    rewrite ?count_reports_app, ?count_reports_one; simpl; repeat split; lia.
Qed.

Lemma process_model_reports i m s s' :
  process_model i m s = (s', inr tt) ->
  exists o, reports s' = reports s ++ [(i, o)].
Proof.
  unfold_item. intros H.
  repeat case_match; simplify_eq; simpl; eauto.
Qed.

(** An entry that is processed to its end moves exactly one counter,
    by one. *)
Lemma process_model_one_counter i m s s' :
  process_model i m s = (s', inr tt) ->
  (successful s' = S (successful s) /\ failed s' = failed s
   /\ skipped_license s' = skipped_license s)
  \/ (successful s' = successful s /\ failed s' = S (failed s)
      /\ skipped_license s' = skipped_license s)
  \/ (successful s' = successful s /\ failed s' = failed s
      /\ skipped_license s' = S (skipped_license s)).
Proof.
  unfold_item. intros H.
  repeat case_match; simplify_eq; simpl; auto.
Qed.

(** The calls of an entry carry its position, and an entry stopped
    by a gate makes none. *)
Lemma process_model_calls i m s s' r :
  process_model i m s = (s', r) ->
  exists cs, calls s' = calls s ++ (pair i <$> cs)
             /\ (license_ok allowed_licenses m && isDownloadable m = false -> cs = []).
Proof.
  unfold_item. intros H.
  repeat case_match; simplify_eq; flip_negb; simpl;
    first [ exists []; split; [now rewrite app_nil_r | done]
          | eexists [_]; split; [reflexivity | gate_contra]
          | eexists [_; _]; split; [now rewrite <- app_assoc | gate_contra] ].
Qed.

(** The same entry, once more, on a disk that holds what the first
    pass left: no new file, and what was saved or present before is
    found present without a transfer. *)
Lemma process_model_rerun i m s1 s1' s2 :
  process_model i m s1 = (s1', inr tt) ->
  files s1' ⊆ files s2 ->
  exists s2' o1 o2 cs2,
    process_model i m s2 = (s2', inr tt)
    /\ files s2' = files s2
    /\ reports s1' = reports s1 ++ [(i, o1)]
    /\ reports s2' = reports s2 ++ [(i, o2)]
    /\ calls s2' = calls s2 ++ (pair i <$> cs2)
    /\ (is_success o1 = true ->
        o2 = AlreadyExists /\ forall u, Transfer u ∉ cs2).
Proof.
  unfold_item. intros H Hsub.
  repeat case_match; simplify_eq; simpl in *; try congruence;
    decided; try on_disk;
    first
      [ eexists _, _, _, []; rerun_parts
      | eexists _, _, _, [_]; rerun_parts
      | eexists _, _, _, [_; _]; rerun_parts ].
Qed.

(** *** The whole loop *)

Lemma for_each_files i models s s' r :
  for_each i models s = (s', r) -> files s ⊆ files s'.
Proof.
  revert i s. induction models as [|m rest IH]; intros i s H.
  - injection H as <- _. done.
  - rewrite for_each_cons in H.
    destruct (process_model i m s) as [sa [e|[]]] eqn:E.
    + injection H as <- _. eapply process_model_files, E.
    + etrans; [eapply process_model_files, E | eapply IH, H].
Qed.

Lemma for_each_consistent i models s s' r :
  for_each i models s = (s', r) -> consistent s -> consistent s'.
Proof.
  revert i s. induction models as [|m rest IH]; intros i s H Hs.
  - injection H as <- _. done.
  - rewrite for_each_cons in H.
    destruct (process_model i m s) as [sa [e|[]]] eqn:E.
    + injection H as <- _. eapply process_model_consistent; eauto.
    + eapply IH; [exact H|]. eapply process_model_consistent; eauto.
Qed.

(** A loop that ends normally has reported every position once, in
    order. *)
Lemma for_each_reports i models s s' :
  for_each i models s = (s', inr tt) ->
  exists R, reports s' = reports s ++ R /\ R.*1 = seq i (length models).
Proof.
  revert i s. induction models as [|m rest IH]; intros i s H.
  - injection H as <-. exists []. now rewrite app_nil_r.
  - rewrite for_each_cons in H.
    destruct (process_model i m s) as [sa [e|[]]] eqn:E; [discriminate|].
    destruct (process_model_reports _ _ _ _ E) as [o Ho].
    destruct (IH _ _ H) as (R & HR & Hidx).
    exists ((i, o) :: R). split.
    + rewrite HR, Ho, <- app_assoc. reflexivity.
    + rewrite fmap_cons, Hidx. reflexivity.
Qed.

(** Every call in the log of a loop belongs to an entry that passed
    both gates. *)
Lemma for_each_calls i models s s' r :
  for_each i models s = (s', r) ->
  exists C, calls s' = calls s ++ C
            /\ forall t c, (t, c) ∈ C ->
                 exists j m, t = i + j /\ models !! j = Some m
                             /\ license_ok allowed_licenses m && isDownloadable m = true.
Proof.
  revert i s. induction models as [|m rest IH]; intros i s H.
  - injection H as <- _. exists []. split; [now rewrite app_nil_r|].
    intros t c Hin. now apply elem_of_nil in Hin.
  - rewrite for_each_cons in H.
    destruct (process_model i m s) as [sa r0] eqn:E.
    destruct (process_model_calls _ _ _ _ _ E) as (cs & Hcs & Hgate).
    assert (Hitem : forall t c, (t, c) ∈ pair i <$> cs ->
              t = i + 0 /\ (m :: rest) !! 0 = Some m
              /\ license_ok allowed_licenses m && isDownloadable m = true).
    { intros t c Hin. apply list_elem_of_fmap in Hin as (c' & Eq & Hc').
      injection Eq as -> ->. repeat split; [lia|].
      destruct (license_ok allowed_licenses m && isDownloadable m); [done|].
      rewrite (Hgate eq_refl) in Hc'. now apply elem_of_nil in Hc'. }
    destruct r0 as [e|[]].
    + injection H as <- _. exists (pair i <$> cs). split; [exact Hcs|].
      intros t c Hin. exists 0, m. exact (Hitem _ _ Hin).
    + destruct (IH _ _ H) as (C & HC & Hrest).
      exists ((pair i <$> cs) ++ C). split.
      * rewrite HC, Hcs, <- app_assoc. reflexivity.
      * intros t c Hin. apply elem_of_app in Hin as [Hin|Hin].
        -- exists 0, m. exact (Hitem _ _ Hin).
        -- destruct (Hrest _ _ Hin) as (j & m' & -> & Hj & Hok).
           exists (S j), m'. repeat split; [lia | exact Hj | exact Hok].
Qed.

Lemma for_each_rerun i models s1 s1' s2 :
  for_each i models s1 = (s1', inr tt) ->
  files s1' ⊆ files s2 ->
  exists s2' R1 R2 C2,
    for_each i models s2 = (s2', inr tt)
    /\ files s2' = files s2
    /\ reports s1' = reports s1 ++ R1
    /\ reports s2' = reports s2 ++ R2
    /\ calls s2' = calls s2 ++ C2
    /\ (forall t o, (t, o) ∈ R1 -> i <= t)
    /\ (forall t c, (t, c) ∈ C2 -> i <= t)
    /\ (forall t o, (t, o) ∈ R1 -> is_success o = true ->
           (t, AlreadyExists) ∈ R2 /\ forall u, (t, Transfer u) ∉ C2).
Proof.
  revert i s1 s2. induction models as [|m rest IH]; intros i s1 s2 H Hsub.
  - injection H as <-. exists s2, [], [], [].
    rewrite !app_nil_r. repeat split; try done; intros;
      match goal with Hin : _ ∈ [] |- _ => now apply elem_of_nil in Hin end.
  - rewrite for_each_cons in H.
    destruct (process_model i m s1) as [sa [e|[]]] eqn:E1; [discriminate|].
    assert (Hsa : files sa ⊆ files s2).
    { etrans; [eapply for_each_files, H | exact Hsub]. }
    destruct (process_model_rerun _ _ _ _ _ E1 Hsa)
      as (sb & o1 & o2 & cs2 & E2 & Hfb & Hr1 & Hr2 & Hc2 & Hgood).
    assert (Hsb : files s1' ⊆ files sb) by now rewrite Hfb.
    destruct (IH _ _ _ H Hsb)
      as (s2' & R1 & R2 & C2 & E3 & Hf & HR1 & HR2 & HC2 & Ht1 & Ht2 & Hrest).
    exists s2', ((i, o1) :: R1), ((i, o2) :: R2), ((pair i <$> cs2) ++ C2).
    rewrite for_each_cons, E2.
    split; [exact E3|]. split; [congruence|].
    split; [rewrite HR1, Hr1, <- app_assoc; reflexivity|].
    split; [rewrite HR2, Hr2, <- app_assoc; reflexivity|].
    split; [rewrite HC2, Hc2, <- app_assoc; reflexivity|].
    split; [|split].
    + intros t o Hin. apply elem_of_cons in Hin as [Eq|Hin].
      * injection Eq as -> _. lia.
      * specialize (Ht1 _ _ Hin). lia.
    + intros t c Hin. apply elem_of_app in Hin as [Hin|Hin].
      * apply list_elem_of_fmap in Hin as (c' & Eq & _). injection Eq as -> _. lia.
      * specialize (Ht2 _ _ Hin). lia.
    + intros t o Hin Hok. apply elem_of_cons in Hin as [Eq|Hin].
      * injection Eq as -> ->. destruct (Hgood Hok) as [-> Hno].
        split; [apply elem_of_cons; auto|].
        intros u Hu. apply elem_of_app in Hu as [Hu|Hu].
        -- apply list_elem_of_fmap in Hu as (c' & Eq & Hc').
           injection Eq as <-. exact (Hno _ Hc').
        -- specialize (Ht2 _ _ Hu). lia.
      * destruct (Hrest _ _ Hin Hok) as [Hex Hno].
        split; [apply elem_of_cons; auto|].
        intros u Hu. apply elem_of_app in Hu as [Hu|Hu].
        -- apply list_elem_of_fmap in Hu as (c' & Eq & _).
           injection Eq as -> _. specialize (Ht1 _ _ Hin). lia.
        -- exact (Hno _ Hu).
Qed.
End Items.
End DownloaderFacts.

Import Py License Data Catalog Downloader DownloaderFacts Samples.



(** C9, as stated, fails: an [OSError] out of [open], which no
    transport raises, is caught like any other; the entry is reported
    and tallied as failed and the run goes on to its summary. *)
Lemma refused_open_is_caught :
  transport_layer OSError = false
  /\ open_refused refusing_disk 1 lamp_path = Some OSError
  /\ match download_author_models token "artist" "downloads" None
             [ok (Page [lamp; robot] None)] refusing_disk ∅ with
     | Summary st total =>
         reports st = [(1, FailedWith OSError); (2, Saved)]
         /\ failed st = 1 /\ successful st = 1 /\ total = 2
     | _ => False
     end.
Proof. vm_compute. repeat split; reflexivity. Qed.

(** C9 (amended): for an entry that passed both gates, every exception
    of class [Exception] raised inside the [try] block, from the
    transport or not, is caught: the entry is reported and tallied as
    failed and the loop continues with the next entry.  An exception
    outside that class raised there, and the exception raised before
    the [try] block when a field of the entry cannot be read (an
    [AttributeError] for a license that is not an object, a label that
    is not a string or a name that is an array with an item that is not
    a string; a [TypeError] for a name that is [null], a number or a
    boolean), propagate and end the loop. *)
Theorem exceptions_in_download_phase w output_path allowed i m rest s :
  (forall s1 e,
      license_ok allowed m = true -> isDownloadable m = true ->
      attempt w output_path i (stem m) (uid m) s = (s1, inl e) ->
      (is_Exception e = true ->
       for_each w output_path allowed i (m :: rest) s
       = for_each w output_path allowed (S i) rest
                  (count_failed (log_report (i, FailedWith e) s1)))
      /\ (is_Exception e = false ->
          for_each w output_path allowed i (m :: rest) s = (s1, inl e)))
  /\ (readable m = false ->
      (fields m = inl AttributeError \/ fields m = inl TypeError)
      /\ forall e, fields m = inl e ->
           for_each w output_path allowed i (m :: rest) s = (s, inl e)).
Proof.
  split.
  - intros s1 e Hlic Hdl Hraise. rewrite for_each_cons.
    unfold process_model, try_except, license_ok, fields, stem in *.
    unfold lift, mbind, M_bind in *.
    destruct (license_label m) as [e0|l]; [discriminate|].
    destruct (safe_name m) as [e0|n]; [discriminate|].
    rewrite Hlic, Hdl. simpl. rewrite Hraise.
    split; intros ->; reflexivity.
  - intros Hread. split.
    + destruct (fields m) as [e|] eqn:Hf;
        [|unfold readable in Hread; rewrite Hf in Hread; discriminate].
      destruct (fields_raise _ _ Hf) as [-> | ->]; auto.
    + intros e He. rewrite for_each_cons.
      unfold process_model, fields in *.
      unfold lift, mbind, M_bind in *.
      destruct (license_label m) as [e0|l]; [now injection He as <-|].
      destruct (safe_name m) as [e0|n]; [now injection He as <-|discriminate].
Qed.

Lemma exceptions_in_download_phase_witness :
  for_each refusing_disk "downloads/artist" (List.map lower default_licenses)
           1 [lamp; robot] (initial ∅)
  = for_each refusing_disk "downloads/artist" (List.map lower default_licenses)
             2 [robot]
             (State 0 1 0 ∅
                    [(1, Resolve (resolve_url lamp));
                     (1, Transfer "https://cdn.example/d4c7/lamp.glb")]
                    [(1, FailedWith OSError)])
  /\ for_each interrupted "downloads/artist" (List.map lower default_licenses)
              1 [lamp; robot] (initial ∅)
     = (State 0 0 0 ∅
              [(1, Resolve (resolve_url lamp));
               (1, Transfer "https://cdn.example/d4c7/lamp.glb")] [],
        inl KeyboardInterrupt)
  /\ for_each friendly "downloads/artist" (List.map lower default_licenses)
              1 [orphan; robot] (initial ∅)
     = (initial ∅, inl AttributeError)
  /\ for_each friendly "downloads/artist" (List.map lower default_licenses)
              1 [MoreSamples.nameless; robot] (initial ∅)
     = (initial ∅, inl TypeError)
  /\ for_each friendly "downloads/artist" (List.map lower default_licenses)
              1 [MoreSamples.unlabeled; robot] (initial ∅)
     = (initial ∅, inl AttributeError).
Proof.
  split; [|split; [|split; [|split]]].
  - apply (proj1 (exceptions_in_download_phase
                    refusing_disk "downloads/artist"
                    (List.map lower default_licenses) 1 lamp [robot] (initial ∅))
                 (State 0 0 0 ∅
                        [(1, Resolve (resolve_url lamp));
                         (1, Transfer "https://cdn.example/d4c7/lamp.glb")] [])
                 OSError); reflexivity.
  - apply (proj1 (exceptions_in_download_phase
                    interrupted "downloads/artist"
                    (List.map lower default_licenses) 1 lamp [robot] (initial ∅))
                 (State 0 0 0 ∅
                        [(1, Resolve (resolve_url lamp));
                         (1, Transfer "https://cdn.example/d4c7/lamp.glb")] [])
                 KeyboardInterrupt); reflexivity.
  - apply (proj2 (exceptions_in_download_phase
                    friendly "downloads/artist"
                    (List.map lower default_licenses) 1 orphan [robot] (initial ∅)));
      reflexivity.
  - apply (proj2 (exceptions_in_download_phase
                    friendly "downloads/artist"
                    (List.map lower default_licenses) 1 MoreSamples.nameless [robot]
                    (initial ∅)));
      reflexivity.
  - apply (proj2 (exceptions_in_download_phase
                    friendly "downloads/artist"
                    (List.map lower default_licenses) 1 MoreSamples.unlabeled [robot]
                    (initial ∅)));
      reflexivity.
Defined.

(** What a run that reaches its summary went through. *)
Lemma summary_inv api_token username output_dir allowed answers w disk st total :
  download_author_models api_token username output_dir allowed answers w disk
  = Summary st total ->
  exists r,
    truthy_opt api_token = true
    /\ get_user_models username answers = FetchReturns r
    /\ total = length (fetched_models r)
    /\ fetched_models r <> []
    /\ open_refused w 0 (metadata_path (join output_dir username)) = None
    /\ for_each w (join output_dir username)
                (List.map lower (default default_licenses allowed))
                1 (fetched_models r)
                (initial ({[metadata_path (join output_dir username)]} ∪ disk))
       = (st, inr tt).
Proof.
  unfold download_author_models. intros H.
  destruct (truthy_opt api_token); [|discriminate]. simpl in H.
  destruct (get_user_models username answers) as [r| |]; try discriminate.
  exists r.
  destruct (fetched_models r) as [|m ms] eqn:Em; [discriminate|].
  destruct (open_refused w 0 _); [discriminate|].
  destruct (for_each _ _ _ _ _ _) as [st' [e|[]]]; [discriminate|].
  injection H as -> <-. repeat split. discriminate.
Qed.

(** C10: an entry that is processed to its end increments exactly one
    of the three counters, by one; and when a run reaches its summary,
    the three counters add up to the number of catalog entries: every
    entry, in order, has exactly one report, and each counter is the
    number of reports of its kind. *)
Theorem counters_sum_to_total :
  (forall w output_path allowed i m s s',
      process_model w output_path allowed i m s = (s', inr tt) ->
      (successful s' = S (successful s) /\ failed s' = failed s
       /\ skipped_license s' = skipped_license s)
      \/ (successful s' = successful s /\ failed s' = S (failed s)
          /\ skipped_license s' = skipped_license s)
      \/ (successful s' = successful s /\ failed s' = failed s
          /\ skipped_license s' = S (skipped_license s)))
  /\ (forall api_token username output_dir allowed answers w disk st total,
        download_author_models api_token username output_dir allowed answers w disk
        = Summary st total ->
        successful st + failed st + skipped_license st = total
        /\ (reports st).*1 = seq 1 total
        /\ consistent st
        /\ exists r, get_user_models username answers = FetchReturns r
                     /\ total = length (fetched_models r)).
Proof.
  split; [intros *; apply process_model_one_counter|].
  intros api_token username output_dir allowed answers w disk st total H.
  destruct (summary_inv _ _ _ _ _ _ _ _ _ H) as (r & _ & Hfetch & -> & _ & _ & Hloop).
  pose proof (for_each_consistent _ _ _ _ _ _ _ _ Hloop (consistent_initial _))
    as Hcons.
  destruct (for_each_reports _ _ _ _ _ _ _ Hloop) as (R & HR & Hidx).
  simpl in HR. subst R.
  assert (Hlen : length (reports st) = length (fetched_models r)).
  { rewrite <- (length_fmap fst), Hidx. apply length_seq. }
  split; [|split; [exact Hidx|split; [exact Hcons|eauto]]].
  destruct Hcons as (-> & -> & ->).
  rewrite count_reports_partition. exact Hlen.
Qed.

Lemma counters_sum_to_total_witness :
  download_author_models token "artist" "downloads" None three_pages friendly ∅
  = Summary first_summary 4
  /\ successful first_summary + failed first_summary
     + skipped_license first_summary = 4.
Proof.
  assert (H1 : download_author_models token "artist" "downloads" None
                 three_pages friendly ∅ = Summary first_summary 4)
    by (vm_compute; reflexivity).
  split; [exact H1|].
  exact (proj1 (proj2 counters_sum_to_total _ _ _ _ _ _ _ _ _ H1)).
Defined.

(** C8: when a run has reached its summary and the downloader is run
    again on the files it left, with the same catalog and the same
    answers of the service, the second run reaches its summary with
    the set of files unchanged; every entry the first run reported as
    saved or as already present is reported as already present, is
    counted among the successes, and causes no transfer. *)
Theorem second_run_is_idempotent
        api_token username output_dir allowed answers w disk st1 total :
  download_author_models api_token username output_dir allowed answers w disk
  = Summary st1 total ->
  exists st2,
    download_author_models api_token username output_dir allowed answers w
                           (files st1)
    = Summary st2 total
    /\ files st2 = files st1
    /\ successful st2 = count_reports is_success (reports st2)
    /\ forall i o,
        (i, o) ∈ reports st1 -> is_success o = true ->
        (i, AlreadyExists) ∈ reports st2
        /\ forall u, (i, Transfer u) ∉ calls st2.
Proof.
  intros H.
  destruct (summary_inv _ _ _ _ _ _ _ _ _ H)
    as (r & Htok & Hfetch & -> & Hne & Hopen & Hloop).
  set (meta := metadata_path (join output_dir username)) in *.
  pose proof (for_each_files _ _ _ _ _ _ _ _ Hloop) as Hmono. simpl in Hmono.
  assert (Hsub : files st1 ⊆ files (initial ({[meta]} ∪ files st1)))
    by apply union_subseteq_r.
  destruct (for_each_rerun _ _ _ _ _ _ _ _ Hloop Hsub)
    as (st2 & R1 & R2 & C2 & Hloop2 & Hfiles & HR1 & HR2 & HC2 & _ & _ & Hgood).
  simpl in HR1, HR2, HC2, Hfiles. subst R1 R2 C2.
  exists st2. split; [|split; [|split]].
  - unfold download_author_models. rewrite Htok, Hfetch. simpl.
    fold meta. rewrite Hopen, Hloop2.
    now destruct (fetched_models r).
  - rewrite Hfiles. apply subseteq_union_1_L.
    etrans; [apply union_subseteq_l | exact Hmono].
  - apply (for_each_consistent _ _ _ _ _ _ _ _ Hloop2 (consistent_initial _)).
  - exact Hgood.
Qed.

Lemma second_run_is_idempotent_witness :
  download_author_models token "artist" "downloads" None three_pages friendly ∅
  = Summary first_summary 4
  /\ exists st2,
      download_author_models token "artist" "downloads" None three_pages friendly
                             (files first_summary)
      = Summary st2 4
      /\ files st2 = files first_summary
      /\ (1, AlreadyExists) ∈ reports st2
      /\ (4, AlreadyExists) ∈ reports st2
      /\ forall u, (4, Transfer u) ∉ calls st2.
Proof.
  assert (H1 : download_author_models token "artist" "downloads" None
                 three_pages friendly ∅ = Summary first_summary 4)
    by (vm_compute; reflexivity).
  split; [exact H1|].
  destruct (second_run_is_idempotent _ _ _ _ _ _ _ _ _ H1)
    as (st2 & H2 & Hfiles & _ & Hgood).
  exists st2. split; [exact H2|]. split; [exact Hfiles|].
  assert (In1 : (1, Saved) ∈ reports first_summary) by apply list_elem_of_here.
  assert (In4 : (4, Saved) ∈ reports first_summary)
    by (do 3 apply list_elem_of_further; apply list_elem_of_here).
  split; [exact (proj1 (Hgood _ _ In1 eq_refl))|].
  exact (Hgood _ _ In4 eq_refl).
Defined.

(** * Further properties of the code *)

(** ** The license filter, token by token *)

Module FilterFacts.
Import Py License PyFacts LicenseFacts.

Lemma lstrip_rstrip s : lstrip (rstrip s) = rstrip (lstrip s).
Proof.
  induction s as [|c s IH]; [reflexivity|].
  cbn [lstrip rstrip]. destruct (isspace c) eqn:Hc.
  - rewrite <- IH. destruct (rstrip s) as [|a r]; [reflexivity|].
    cbn [lstrip]. now rewrite Hc.
  - cbn [rstrip]. destruct (rstrip s) as [|a r]; cbn [lstrip]; now rewrite Hc.
Qed.

Lemma lstrip_idem s : lstrip (lstrip s) = lstrip s.
Proof.
  induction s as [|c s IH]; [reflexivity|].
  cbn [lstrip]. destruct (isspace c) eqn:Hc; [exact IH|].
  cbn [lstrip]. now rewrite Hc.
Qed.

Lemma rstrip_idem s : rstrip (rstrip s) = rstrip s.
Proof.
  induction s as [|c s IH]; [reflexivity|].
  cbn [rstrip]. destruct (rstrip s) as [|a r] eqn:Hr.
  - destruct (isspace c) eqn:Hc; [reflexivity|]. cbn [rstrip]. now rewrite Hc.
  - cbn [rstrip] in IH |- *. now rewrite IH.
Qed.

Lemma strip_idem s : strip (strip s) = strip s.
Proof.
  unfold strip. now rewrite lstrip_rstrip, lstrip_idem, rstrip_idem.
Qed.

(** The loop looks at a token only through its trimmed lowercase form. *)
Lemma license_matches_tokens s T T' :
  Forall2 (fun a b => strip (lower a) = strip (lower b)) T T' ->
  license_matches s T = license_matches s T'.
Proof.
  induction 1 as [|a b T T' E _ IH]; [reflexivity|].
  cbn [license_matches]. now rewrite E, IH.
Qed.

Lemma license_matches_cons s a T :
  license_matches s (a :: T) = license_matches s [a] || license_matches s T.
Proof.
  cbn [license_matches].
  repeat match goal with
         | |- context [if ?b then true else _] => destruct b; [reflexivity|]
         end.
  reflexivity.
Qed.

Lemma license_matches_any s T :
  license_matches s T = existsb (fun a => license_matches s [a]) T.
Proof.
  induction T as [|a T IH]; [reflexivity|].
  now rewrite license_matches_cons, IH.
Qed.

Lemma existsb_over_map {A B : Type} (f : B -> bool) (g : A -> B) l :
  existsb f (List.map g l) = existsb (fun a => f (g a)) l.
Proof. induction l as [|a l IH]; simpl; [reflexivity | now rewrite IH]. Qed.

(** The rule for "by", on the label the loop works on. *)
Lemma license_matches_by s :
  license_matches s ["by"]
  = String.eqb (dash_to_space s) "by" || spec_by_rule (dash_to_space s).
Proof.
  cbn [license_matches].
  change (strip (lower "by")) with "by".
  change (dash_to_space "by") with "by".
  change (String.eqb "by" "by") with true.
  change (String.eqb "by" "cc0") with false.
  unfold spec_by_rule. cbn [andb].
  destruct (String.eqb_spec s "by") as [E|_]; [now rewrite E|].
  destruct (String.eqb (dash_to_space s) "by"); [reflexivity|]. cbn [orb].
  destruct (contains "attribution" (dash_to_space s)
            || contains "cc" (dash_to_space s) && contains "by" (dash_to_space s));
    cbn [andb]; [|reflexivity].
  destruct (contains "nc" (dash_to_space s)), (contains "nd" (dash_to_space s)),
    (contains "sa" (dash_to_space s)), (contains "noncommercial" (dash_to_space s)),
    (contains "noderivatives" (dash_to_space s)), (contains "sharealike" (dash_to_space s));
    reflexivity.
Qed.

(** The rule for "cc0": both comparisons are subsumed by the search. *)
Lemma license_matches_cc0 s :
  license_matches s ["cc0"]
  = contains "cc0" (dash_to_space s) || contains "cc 0" (dash_to_space s).
Proof.
  cbn [license_matches].
  change (strip (lower "cc0")) with "cc0".
  change (dash_to_space "cc0") with "cc0".
  change (String.eqb "cc0" "by") with false.
  change (String.eqb "cc0" "cc0") with true.
  cbn [andb].
  destruct (String.eqb_spec s "cc0") as [E|_]; [now rewrite E|].
  destruct (String.eqb_spec (dash_to_space s) "cc0") as [E|_]; [now rewrite E|].
  destruct (contains "cc0" (dash_to_space s) || contains "cc 0" (dash_to_space s));
    reflexivity.
Qed.

(** Any other token is compared, and nothing else. *)
Lemma license_matches_plain s a :
  strip (lower a) <> "by" -> strip (lower a) <> "cc0" ->
  license_matches s [a]
  = String.eqb (dash_to_space s) (dash_to_space (strip (lower a))).
Proof.
  intros Nby Ncc. cbn [license_matches].
  destruct (String.eqb_spec (strip (lower a)) "by") as [E|_]; [contradiction|].
  destruct (String.eqb_spec (strip (lower a)) "cc0") as [E|_]; [contradiction|].
  cbn [andb].
  destruct (String.eqb_spec s (strip (lower a))) as [E|_].
  - rewrite E. symmetry. apply String.eqb_refl.
  - destruct (String.eqb _ _); reflexivity.
Qed.

End FilterFacts.

Import FilterFacts.

(** X1: the verdict on a list of tokens is the disjunction of the
    verdicts on each token alone; so it does not depend on the order of
    the tokens, and joining two lists joins the verdicts. *)
Theorem match_is_any_token label T T' :
  match_license label T = existsb (fun a => match_license label [a]) T
  /\ match_license label (T ++ T')
     = match_license label T || match_license label T'.
Proof.
  unfold match_license. split.
  - rewrite license_matches_any, existsb_over_map. reflexivity.
  - rewrite List.map_app, !license_matches_any, existsb_app. reflexivity.
Qed.

(** X2: the verdict ignores the case and the surrounding whitespace of
    the label and of every token. *)
Theorem match_ignores_case_and_padding label T :
  match_license (lower label) T = match_license label T
  /\ match_license (strip label) T = match_license label T
  /\ match_license label (List.map lower T) = match_license label T
  /\ match_license label (List.map strip T) = match_license label T.
Proof.
  unfold match_license. repeat split.
  - now rewrite !lower_idem.
  - now rewrite <- !lower_strip, strip_idem.
  - f_equal. rewrite List.map_map. apply List.map_ext. intros a. apply lower_idem.
  - apply license_matches_tokens. rewrite List.map_map.
    induction T as [|a T IH]; constructor; [|exact IH].
    now rewrite <- !lower_strip, strip_idem.
Qed.

(** X3: with the single token "cc0" the predicate returns true exactly
    when the normalized label contains "cc0" or "cc 0". *)
Theorem cc0_token_match_characterised label :
  match_license label ["cc0"]
  = contains "cc0" (spec_normalize label) || contains "cc 0" (spec_normalize label).
Proof.
  unfold match_license, spec_normalize. rewrite label_lower_once.
  change (List.map lower ["cc0"]) with ["cc0"]. apply license_matches_cc0.
Qed.

(** X4: with a single token other than "by" and "cc0" the predicate
    returns true exactly when label and token are equal once both are
    lowercased, trimmed and have hyphens and underscores replaced by
    spaces. *)
Theorem plain_token_match_is_equality label a :
  strip (lower a) <> "by" -> strip (lower a) <> "cc0" ->
  match_license label [a]
  = String.eqb (spec_normalize label) (spec_normalize a).
Proof.
  intros Nby Ncc. unfold match_license, spec_normalize.
  rewrite label_lower_once. cbn [List.map].
  rewrite license_matches_plain by (rewrite lower_idem; assumption).
  now rewrite lower_idem.
Qed.

Lemma plain_token_match_is_equality_witness :
  match_license " FREE_Standard" ["Free-Standard "] = true.
Proof.
  rewrite (plain_token_match_is_equality " FREE_Standard" "Free-Standard ");
    [reflexivity | discriminate | discriminate].
Defined.

(** X5: with the default filter a label is accepted exactly when its
    normalized form contains "cc0" or "cc 0", or is "by", or satisfies
    the rule for "by", or is "free standard" or "standard". *)
Theorem default_filter_characterised label :
  match_license label default_licenses
  = contains "cc0" (spec_normalize label)
    || contains "cc 0" (spec_normalize label)
    || String.eqb (spec_normalize label) "by"
    || spec_by_rule (spec_normalize label)
    || String.eqb (spec_normalize label) "free standard"
    || String.eqb (spec_normalize label) "standard".
Proof.
  unfold match_license, spec_normalize. rewrite label_lower_once.
  set (s := strip (lower label)).
  change (List.map lower default_licenses)
    with ["cc0"; "by"; "free standard"; "standard"].
  rewrite (license_matches_cons s "cc0"), (license_matches_cons s "by"),
    (license_matches_cons s "free standard").
  rewrite license_matches_cc0, license_matches_by.
  rewrite !license_matches_plain by (vm_compute; discriminate).
  change (dash_to_space (strip (lower "free standard"))) with "free standard".
  change (dash_to_space (strip (lower "standard"))) with "standard".
  now rewrite !orb_assoc.
Qed.

(** ** Sanitized names, extensions and destinations *)

Module NameFacts.
Import Py License Data Downloader SplitFacts FilterFacts.

Lemma lstrip_strip s : lstrip (strip s) = strip s.
Proof. unfold strip. now rewrite lstrip_rstrip, lstrip_idem. Qed.

Lemma rstrip_strip s : rstrip (strip s) = strip s.
Proof. unfold strip. now rewrite rstrip_idem. Qed.

Lemma length_lstrip s : String.length (lstrip s) <= String.length s.
Proof.
  induction s as [|c s IH]; simpl; [lia|].
  destruct (isspace c); simpl; lia.
Qed.

(** A string that [lstrip] leaves alone is empty or starts with a
    character that is not whitespace. *)
Lemma lstrip_fixed_head c s : lstrip (String c s) = String c s -> isspace c = false.
Proof.
  simpl. destruct (isspace c); [|reflexivity].
  intros E. pose proof (length_lstrip s) as L. rewrite E in L. simpl in L. lia.
Qed.

Lemma lstrip_take n s : lstrip s = s -> lstrip (take n s) = take n s.
Proof.
  destruct n as [|n], s as [|c s]; try reflexivity.
  intros E. simpl. now rewrite (lstrip_fixed_head _ _ E).
Qed.

(** A slice shorter than its bound cut nothing off. *)
Lemma take_short n s : String.length (take n s) < n -> take n s = s.
Proof.
  revert s. induction n as [|n IH]; intros [|c s]; simpl; try lia; [reflexivity|].
  intros L. f_equal. apply IH. lia.
Qed.

Lemma take_all n s : String.length s <= n -> take n s = s.
Proof.
  revert s. induction n as [|n IH]; intros [|c s]; simpl; try lia; try reflexivity.
  intros L. f_equal. apply IH. lia.
Qed.

Lemma filter_str_all p s : all_chars p s = true -> filter_str p s = s.
Proof.
  induction s as [|c s IH]; simpl; [reflexivity|].
  intros H. apply andb_true_iff in H as [Hc Hs]. now rewrite Hc, IH.
Qed.

Lemma all_chars_has_char p c s :
  all_chars p s = true -> p c = false -> has_char c s = false.
Proof.
  intros Hs Hc. induction s as [|a s IH]; simpl; [reflexivity|].
  simpl in Hs. apply andb_true_iff in Hs as [Ha Hs].
  rewrite (IH Hs), orb_false_r.
  apply Ascii.eqb_neq. intros ->. congruence.
Qed.

Lemma all_chars_sanitize model_name : all_chars keeps (sanitize model_name) = true.
Proof.
  unfold sanitize, strip.
  apply all_chars_take, all_chars_rstrip, all_chars_lstrip, all_chars_filter.
Qed.

Lemma before_first_free c s : has_char c (before_first c s) = false.
Proof.
  induction s as [|a s IH]; simpl; [reflexivity|].
  destruct (Ascii.eqb a c) eqn:E; simpl; [reflexivity | now rewrite E, IH].
Qed.

Lemma has_char_false_before_first d c s :
  has_char d s = false -> has_char d (before_first c s) = false.
Proof.
  intros H. destruct (has_char d (before_first c s)) eqn:E; [|reflexivity].
  apply has_char_before_first in E. congruence.
Qed.

Lemma has_char_false_after_last d c s :
  has_char d s = false -> has_char d (after_last c s) = false.
Proof.
  intros H. destruct (has_char d (after_last c s)) eqn:E; [|reflexivity].
  apply has_char_after_last in E. congruence.
Qed.

(** The two forms of an extension. *)
Lemma extension_cases download_url :
  extension download_url = ".zip"
  \/ extension download_url
     = String "." (before_first "?" (after_last "." (after_last "/" download_url))).
Proof.
  unfold extension. rewrite contains_char, first_item_split, !last_item_split.
  destruct (has_char "." (after_last "/" download_url)) eqn:H; [right|now left].
  now rewrite (after_last_segment _ _ _ H).
Qed.

End NameFacts.

Import NameFacts.

(** X6: a sanitized name never starts with whitespace; and when it is
    shorter than 100 characters nothing was cut off, so it does not end
    with whitespace either and sanitizing it again changes nothing. *)
Theorem sanitize_trimmed_and_stable model_name :
  lstrip (sanitize model_name) = sanitize model_name
  /\ (String.length (sanitize model_name) < 100 ->
      strip (sanitize model_name) = sanitize model_name
      /\ sanitize (sanitize model_name) = sanitize model_name).
Proof.
  split.
  - unfold sanitize. apply lstrip_take, lstrip_strip.
  - intros L.
    assert (E : sanitize model_name = strip (filter_str keeps model_name))
      by (unfold sanitize in *; now apply take_short).
    assert (S1 : strip (sanitize model_name) = sanitize model_name)
      by (rewrite E; apply strip_idem).
    split; [exact S1|].
    change (sanitize (sanitize model_name))
      with (take 100 (strip (filter_str keeps (sanitize model_name)))).
    rewrite (filter_str_all _ _ (all_chars_sanitize model_name)), S1.
    apply take_all. lia.
Qed.

Lemma sanitize_trimmed_and_stable_witness :
  String.length (sanitize "  Robot/Model: v2*  ") < 100
  /\ sanitize "  Robot/Model: v2*  " = "RobotModel v2"
  /\ sanitize (sanitize "  Robot/Model: v2*  ") = sanitize "  Robot/Model: v2*  ".
Proof.
  assert (L : String.length (sanitize "  Robot/Model: v2*  ") < 100)
    by (vm_compute; lia).
  split; [exact L|]. split; [reflexivity|].
  exact (proj2 (proj2 (sanitize_trimmed_and_stable "  Robot/Model: v2*  ") L)).
Defined.

(** X7: the extension is always a dot followed by text that contains no
    dot, no slash and no question mark. *)
Theorem extension_is_one_dot_suffix download_url :
  exists t, extension download_url = String "." t
            /\ has_char "." t = false
            /\ has_char "/" t = false
            /\ has_char "?" t = false.
Proof.
  destruct (extension_cases download_url) as [-> | ->].
  - exists "zip". repeat split.
  - eexists. split; [reflexivity|]. repeat split.
    + apply has_char_false_before_first, after_last_free.
    + apply has_char_false_before_first, has_char_false_after_last, after_last_free.
    + apply before_first_free.
Qed.

(** X8: the name of the destination file contains a slash only if the
    identifier does: the sanitized name and the extension never
    contribute one. *)
Theorem filename_slash_only_from_uid model_name model_uid download_url :
  has_char "/" (filename (sanitize model_name) model_uid (extension download_url))
  = has_char "/" (format_uid model_uid).
Proof.
  unfold filename. rewrite !has_char_app.
  rewrite (all_chars_has_char keeps "/" _ (all_chars_sanitize model_name) eq_refl).
  destruct (extension_cases download_url) as [-> | ->]; simpl.
  - now rewrite orb_false_r.
  - rewrite (has_char_false_before_first "/" "?" _
               (has_char_false_after_last "/" "." _ (after_last_free "/" download_url))).
    now rewrite orb_false_r.
Qed.

(** ** The catalog fetcher, for any behaviour of the service *)

Module FetchFacts.
Import Py Data Catalog CatalogFacts.

Lemma fetch_loop_raise good e rest u params models sent :
  truthy u = true ->
  Forall has_next good ->
  fetch_loop (List.map ok good ++ PageRaises e :: rest) (Some u) params models sent
  = FetchRaises e (sent ++ page_requests u params (good ++ [Page [] None])).
Proof.
  intros Hu Hgood. revert u params models sent Hu.
  induction Hgood as [|p good Hp _ IH]; intros u params models sent Hu.
  - simpl. now rewrite Hu.
  - cbn [app List.map]. rewrite fetch_loop_ok by exact Hu.
    destruct (has_next_pointer p Hp) as (u' & E & Hu').
    rewrite E, (IH u' None _ _ Hu').
    cbn [page_requests app]. rewrite E. simpl. now rewrite <- !app_assoc.
Qed.

(** What a returning loop has consumed: successful pages, and then
    either nothing more or one failed response. *)
Lemma fetch_loop_returns answers url params models sent r :
  fetch_loop answers url params models sent = FetchReturns r ->
  exists good,
    fetched_models r = models ++ concat (List.map results good)
    /\ (answers = List.map ok good ++ unread r
        \/ exists status data,
            status <> 200%Z
            /\ answers = List.map ok good ++ PageResponse status data :: unread r)
    /\ length (issued r) + length (unread r) = length sent + length answers.
Proof.
  revert url params models sent.
  induction answers as [|a rest IH]; intros url params models sent H.
  - exists []. destruct url as [u|]; simpl in H; [destruct (truthy u)|];
      try discriminate; injection H as <-; simpl;
      rewrite app_nil_r; auto.
  - destruct url as [u|]; [destruct (truthy u) eqn:Hu|].
    + simpl in H. rewrite Hu in H. destruct a as [e|status data]; [discriminate|].
      destruct (Z.eqb_spec status 200) as [->|Hst]; simpl in H.
      * destruct (IH _ _ _ _ H) as (good & Hm & Hans & Hlen).
        exists (data :: good). split; [|split].
        -- rewrite Hm. simpl. now rewrite <- app_assoc.
        -- destruct Hans as [-> | (st & d & Hst & ->)]; [left | right]; eauto.
        -- rewrite Hlen, length_app. simpl. lia.
      * injection H as <-. exists []. simpl. rewrite app_nil_r.
        split; [reflexivity|]. split; [right; eauto|].
        rewrite length_app. simpl. lia.
    + simpl in H. rewrite Hu in H. injection H as <-. exists []. simpl.
      rewrite app_nil_r. auto.
    + simpl in H. injection H as <-. exists []. simpl. rewrite app_nil_r. auto.
Qed.

End FetchFacts.

Import FetchFacts.

(** X9: an exception out of a listing request is not caught: after any
    number of successful pages the fetcher raises it, the entries read
    so far are lost, and [download_author_models] raises it as well. *)
Theorem listing_exception_propagates username good e rest :
  Forall has_next good ->
  (exists sent,
      get_user_models username (List.map ok good ++ PageRaises e :: rest)
      = FetchRaises e sent
      /\ length sent = S (length good))
  /\ forall api_token output_dir allowed w disk,
      truthy_opt api_token = true ->
      download_author_models api_token username output_dir allowed
        (List.map ok good ++ PageRaises e :: rest) w disk
      = RunRaises e.
Proof.
  intros Hgood.
  assert (E : get_user_models username (List.map ok good ++ PageRaises e :: rest)
              = FetchRaises e
                  (page_requests (base_url +:+ "/models") (Some (username, 100%Z))
                                 (good ++ [Page [] None]))).
  { unfold get_user_models. now rewrite fetch_loop_raise. }
  split.
  - eexists. split; [exact E|].
    rewrite length_page_requests, length_app. simpl. lia.
  - intros api_token output_dir allowed w disk Htok.
    unfold download_author_models. now rewrite Htok, E.
Qed.

Lemma listing_exception_propagates_witness :
  download_author_models token "artist" "downloads" None
    (List.map ok [page1; page2] ++ PageRaises Timeout :: []) friendly ∅
  = RunRaises Timeout.
Proof.
  apply (proj2 (listing_exception_propagates "artist" [page1; page2] Timeout []
                  ltac:(repeat constructor))).
  reflexivity.
Defined.

(** X10: whatever the service answers, a catalog the fetcher returns is
    the concatenation, in order, of the entries of the successful pages
    it consumed; these are followed by nothing it read, or by exactly
    one failed response; and every answer consumed cost one request. *)
Theorem fetched_is_prefix_of_served username answers r :
  get_user_models username answers = FetchReturns r ->
  exists good,
    fetched_models r = concat (List.map results good)
    /\ (answers = List.map ok good ++ unread r
        \/ exists status data,
            status <> 200%Z
            /\ answers = List.map ok good ++ PageResponse status data :: unread r)
    /\ length (issued r) + length (unread r) = length answers.
Proof.
  intros H. destruct (fetch_loop_returns _ _ _ _ _ _ H) as (good & Hm & Hans & Hlen).
  exists good. auto.
Qed.

Lemma fetched_is_prefix_of_served_witness :
  exists good,
    [robot; castle] = concat (List.map results good)
    /\ ([ok page1; PageResponse 500 (Page [] None); ok page3]
        = List.map ok good ++ [ok page3]
        \/ exists status data,
            status <> 200%Z
            /\ [ok page1; PageResponse 500 (Page [] None); ok page3]
               = List.map ok good ++ PageResponse status data :: [ok page3])
    /\ 2 + 1 = 3.
Proof.
  exact (fetched_is_prefix_of_served "artist"
           [ok page1; PageResponse 500 (Page [] None); ok page3]
           (Fetched [robot; castle]
              [Request (base_url +:+ "/models") (Some ("artist", 100%Z));
               Request "https://api.sketchfab.com/v3/models?cursor=2" None]
              [ok page3])
           eq_refl).
Defined.

(** X11: to the downloader a failed page is an empty last page: the run
    on a catalog cut short by a failed response is the run on the same
    pages closed by a successful page with no entries and no pointer. *)
Theorem failed_page_is_empty_last_page
        api_token username output_dir allowed good status data rest w disk :
  Forall has_next good ->
  status <> 200%Z ->
  download_author_models api_token username output_dir allowed
    (List.map ok good ++ PageResponse status data :: rest) w disk
  = download_author_models api_token username output_dir allowed
      (List.map ok (good ++ [Page [] None])) w disk.
Proof.
  intros Hgood Hst. unfold download_author_models, get_user_models.
  rewrite (fetch_loop_break good status data rest) by (auto; reflexivity).
  pose proof (fetch_loop_chain good (Page [] None) []
                (base_url +:+ "/models") (Some (username, 100%Z)) [] []
                eq_refl Hgood eq_refl) as E.
  rewrite app_nil_r in E. rewrite E.
  cbn [fetched_models]. rewrite List.map_app, concat_app. simpl.
  now rewrite !app_nil_r.
Qed.

Lemma failed_page_is_empty_last_page_witness :
  download_author_models token "artist" "downloads" None
    (List.map ok [page1] ++ PageResponse 503 (Page [] None) :: [ok page3]) friendly ∅
  = download_author_models token "artist" "downloads" None
      (List.map ok ([page1] ++ [Page [] None])) friendly ∅.
Proof.
  apply failed_page_is_empty_last_page; [repeat constructor | discriminate].
Defined.

(** ** The download loop, entry by entry *)

Module LoopFacts.
Import Py License Data Catalog Downloader DownloaderFacts Terms.

Ltac unfold_terms := unfold eligible, destination, resolve_url, stem in *.

Ltac gate :=
  let Hg := fresh in
  intros Hg; simpl in Hg; rewrite ?andb_false_r in Hg; discriminate Hg.

Ltac in_singleton :=
  repeat match goal with
         | H : _ ∈ [] |- _ => now apply elem_of_nil in H
         | H : _ ∈ [_] |- _ => apply list_elem_of_singleton in H
         | H : _ ∈ _ :: _ |- _ => apply elem_of_cons in H as [H|H]
         end.

Lemma calls_at_app i A B : calls_at i (A ++ B) = calls_at i A ++ calls_at i B.
Proof. apply List.filter_app. Qed.

Lemma calls_at_other i C :
  (forall t c, (t, c) ∈ C -> t <> i) -> calls_at i C = [].
Proof.
  induction C as [|[t c] C IH]; intros H; [reflexivity|].
  unfold calls_at in *. simpl.
  destruct (Nat.eqb_spec t i) as [->|_].
  - exfalso. apply (H i c); [apply list_elem_of_here | reflexivity].
  - apply IH. intros t' c' Hin. apply (H t' c'). now apply list_elem_of_further.
Qed.

Lemma calls_at_own i (cs : list call) : calls_at i (pair i <$> cs) = pair i <$> cs.
Proof.
  induction cs as [|c cs IH]; [reflexivity|].
  unfold calls_at in *. rewrite fmap_cons. simpl. rewrite Nat.eqb_refl.
  f_equal. exact IH.
Qed.

Section Items.
Context (w : world) (output_path : string) (allowed_licenses : list string).

Local Abbreviation process_model := (process_model w output_path allowed_licenses).
Local Abbreviation for_each := (for_each w output_path allowed_licenses).

(** *** One entry *)

(** The calls of one entry: none when a gate stops it, else the
    resolution request, followed by at most one transfer, which is made
    only to a destination that is not on disk. *)
Lemma process_model_call_shape i m s s' r :
  process_model i m s = (s', r) ->
  exists cs,
    calls s' = calls s ++ (pair i <$> cs)
    /\ (eligible allowed_licenses m = false -> cs = [])
    /\ (eligible allowed_licenses m = true ->
        cs = [Resolve (resolve_url m)]
        \/ exists u, cs = [Resolve (resolve_url m); Transfer u])
    /\ (forall u, Transfer u ∈ cs -> destination output_path m u ∉ files s).
Proof.
  unfold_terms. unfold_item. intros H.
  repeat case_match; simplify_eq; flip_negb; decided; simpl;
    first [ exists []; split; [now rewrite app_nil_r|];
            split; [done|]; split; [gate | intros; in_singleton]
          | eexists [_]; split; [reflexivity|];
            split; [gate|]; split; [now left | intros; in_singleton; done]
          | eexists [_; _]; split; [now rewrite <- app_assoc|];
            split; [gate|];
            split; [right; eauto | intros; in_singleton; simplify_eq; done] ].
Qed.

(** A file that appears while an entry is processed is the destination
    of a transfer that entry made. *)
Lemma process_model_new_file i m s s' r p :
  process_model i m s = (s', r) ->
  p ∈ files s' ->
  p ∈ files s
  \/ (eligible allowed_licenses m = true
      /\ exists u, p = destination output_path m u /\ (i, Transfer u) ∈ calls s').
Proof.
  unfold_terms. unfold_item. intros H Hp.
  repeat case_match; simplify_eq; flip_negb; simpl in *; auto;
    apply elem_of_union in Hp as [Hp|Hp]; auto;
    apply elem_of_singleton in Hp; subst p; right;
    (split; [reflexivity|]); eexists; (split; [reflexivity|]);
    apply elem_of_app; right; apply list_elem_of_here.
Qed.

(** At most one report per entry, none when it raises; a report of
    success comes with the file on disk. *)
Lemma process_model_report_shape i m s s' r :
  process_model i m s = (s', r) ->
  exists os,
    reports s' = reports s ++ (pair i <$> os)
    /\ (forall o, o ∈ os -> is_success o = true ->
        exists u, destination output_path m u ∈ files s').
Proof.
  unfold_terms. unfold_item. intros H.
  repeat case_match; simplify_eq; decided; simpl;
    first [ exists []; split; [now rewrite app_nil_r | intros; in_singleton]
          | eexists [_]; split; [reflexivity|];
            intros; in_singleton; simplify_eq; try discriminate;
            eexists; first [ eassumption
                           | apply elem_of_union_l, elem_of_singleton; reflexivity ] ].
Qed.


(** *** The whole loop *)

Lemma for_each_transfers i models s s' r :
  for_each i models s = (s', r) ->
  exists C,
    calls s' = calls s ++ C
    /\ (forall t c, (t, c) ∈ C -> i <= t)
    /\ (forall j m u, models !! j = Some m -> (i + j, Transfer u) ∈ C ->
         destination output_path m u ∉ files s).
Proof.
  revert i s. induction models as [|m rest IH]; intros i s H.
  - injection H as <- _. exists []. rewrite app_nil_r.
    repeat split; intros; in_singleton.
  - rewrite for_each_cons in H.
    destruct (process_model i m s) as [sa r0] eqn:E.
    destruct (process_model_call_shape _ _ _ _ _ E) as (cs & Hcs & _ & _ & Hfresh).
    assert (Hown : forall t c, (t, c) ∈ pair i <$> cs -> t = i /\ c ∈ cs).
    { intros t c Hin. apply list_elem_of_fmap in Hin as (c' & Eq & Hc').
      now injection Eq as -> ->. }
    destruct r0 as [e|[]].
    + injection H as <- _. exists (pair i <$> cs). split; [exact Hcs|]. split.
      * intros t c Hin. destruct (Hown _ _ Hin). lia.
      * intros j m' u Hj Hin. destruct (Hown _ _ Hin) as [Ej Hu].
        assert (j = 0) as -> by lia. injection Hj as <-. auto.
    + destruct (IH _ _ H) as (C & HC & Htag & Hrest).
      exists ((pair i <$> cs) ++ C). split; [|split].
      * rewrite HC, Hcs, <- app_assoc. reflexivity.
      * intros t c Hin. apply elem_of_app in Hin as [Hin|Hin].
        -- destruct (Hown _ _ Hin). lia.
        -- specialize (Htag _ _ Hin). lia.
      * intros j m' u Hj Hin. apply elem_of_app in Hin as [Hin|Hin].
        -- destruct (Hown _ _ Hin) as [Ej Hu].
           assert (j = 0) as -> by lia. injection Hj as <-. auto.
        -- destruct j as [|j]; [specialize (Htag _ _ Hin); lia|].
           replace (i + S j) with (S i + j) in Hin by lia.
           intros Hp. apply (Hrest j m' u Hj Hin).
           exact (process_model_files _ _ _ _ _ _ _ _ E _ Hp).
Qed.

Lemma for_each_call_shape i models s s' :
  for_each i models s = (s', inr tt) ->
  exists C,
    calls s' = calls s ++ C
    /\ (forall t c, (t, c) ∈ C -> i <= t)
    /\ (forall j m, models !! j = Some m ->
         (eligible allowed_licenses m = false -> calls_at (i + j) C = [])
         /\ (eligible allowed_licenses m = true ->
             calls_at (i + j) C = [(i + j, Resolve (resolve_url m))]
             \/ exists u, calls_at (i + j) C
                          = [(i + j, Resolve (resolve_url m)); (i + j, Transfer u)])).
Proof.
  revert i s. induction models as [|m rest IH]; intros i s H.
  - injection H as <-. exists []. rewrite app_nil_r.
    repeat split; intros; in_singleton; discriminate.
  - rewrite for_each_cons in H.
    destruct (process_model i m s) as [sa [e|[]]] eqn:E; [discriminate|].
    destruct (process_model_call_shape _ _ _ _ _ E) as (cs & Hcs & Hno & Hyes & _).
    destruct (IH _ _ H) as (C & HC & Htag & Hrest).
    assert (Hown : forall t c, (t, c) ∈ pair i <$> cs -> t = i).
    { intros t c Hin. apply list_elem_of_fmap in Hin as (c' & Eq & _).
      now injection Eq as -> _. }
    exists ((pair i <$> cs) ++ C). split; [|split].
    + rewrite HC, Hcs, <- app_assoc. reflexivity.
    + intros t c Hin. apply elem_of_app in Hin as [Hin|Hin].
      * rewrite (Hown _ _ Hin). lia.
      * specialize (Htag _ _ Hin). lia.
    + intros j m' Hj. rewrite calls_at_app. destruct j as [|j].
      * injection Hj as <-. rewrite Nat.add_0_r, calls_at_own.
        rewrite (calls_at_other i C), app_nil_r
          by (intros t c Hin; specialize (Htag _ _ Hin); lia).
        split.
        -- intros Hg. now rewrite (Hno Hg).
        -- intros Hg. destruct (Hyes Hg) as [-> | (u & ->)]; [left | right; exists u];
             reflexivity.
      * rewrite (calls_at_other (i + S j) (pair i <$> cs))
          by (intros t c Hin; rewrite (Hown _ _ Hin); lia).
        replace (i + S j) with (S i + j) by lia. exact (Hrest j m' Hj).
Qed.

Lemma for_each_calls_grow i models s s' r c :
  for_each i models s = (s', r) -> c ∈ calls s -> c ∈ calls s'.
Proof.
  intros H Hc. destruct (for_each_calls _ _ _ _ _ _ _ _ H) as (C & -> & _).
  apply elem_of_app. now left.
Qed.

Lemma for_each_new_file i models s s' r p :
  for_each i models s = (s', r) ->
  p ∈ files s' ->
  p ∈ files s
  \/ exists j m u,
      models !! j = Some m /\ eligible allowed_licenses m = true
      /\ p = destination output_path m u /\ (i + j, Transfer u) ∈ calls s'.
Proof.
  revert i s. induction models as [|m rest IH]; intros i s H Hp.
  - injection H as <- _. now left.
  - rewrite for_each_cons in H.
    destruct (process_model i m s) as [sa r0] eqn:E.
    assert (Hitem : p ∈ files sa -> forall s'', (forall c, c ∈ calls sa -> c ∈ calls s'') ->
              p ∈ files s
              \/ exists j m0 u,
                  (m :: rest) !! j = Some m0 /\ eligible allowed_licenses m0 = true
                  /\ p = destination output_path m0 u /\ (i + j, Transfer u) ∈ calls s'').
    { intros Hpa s'' Hgrow.
      destruct (process_model_new_file _ _ _ _ _ _ E Hpa)
        as [Hs | (Hel & u & -> & Hin)]; [now left | right].
      exists 0, m, u. rewrite Nat.add_0_r. auto. }
    destruct r0 as [e|[]].
    + injection H as <- _. apply (Hitem Hp). auto.
    + destruct (IH _ _ H Hp) as [Hpa | (j & m0 & u & Hj & Hel & -> & Hin)].
      * apply (Hitem Hpa). intros c. apply (for_each_calls_grow _ _ _ _ _ _ H).
      * right. exists (S j), m0, u.
        replace (i + S j) with (S i + j) by lia. auto.
Qed.

Lemma for_each_success_file i models s s' r t o :
  for_each i models s = (s', r) ->
  (t, o) ∈ reports s' ->
  (t, o) ∈ reports s
  \/ exists j m,
      t = i + j /\ models !! j = Some m
      /\ (is_success o = true -> exists u, destination output_path m u ∈ files s').
Proof.
  revert i s. induction models as [|m rest IH]; intros i s H Hin.
  - injection H as <- _. now left.
  - rewrite for_each_cons in H.
    destruct (process_model i m s) as [sa r0] eqn:E.
    destruct (process_model_report_shape _ _ _ _ _ E) as (os & Hos & Hfile).
    assert (Hitem : (t, o) ∈ reports sa -> files sa ⊆ files s' ->
              (t, o) ∈ reports s
              \/ exists j m0,
                  t = i + j /\ (m :: rest) !! j = Some m0
                  /\ (is_success o = true ->
                      exists u, destination output_path m0 u ∈ files s')).
    { intros Ha Hsub. rewrite Hos in Ha. apply elem_of_app in Ha as [Ha|Ha]; [now left|].
      apply list_elem_of_fmap in Ha as (o' & Eq & Ho'). injection Eq as -> ->.
      right. exists 0, m. rewrite Nat.add_0_r. repeat split.
      intros Hok. destruct (Hfile _ Ho' Hok) as (u & Hu). exists u. auto. }
    destruct r0 as [e|[]].
    + injection H as <- _. apply (Hitem Hin). done.
    + destruct (IH _ _ H Hin) as [Ha | (j & m0 & -> & Hj & Hok)].
      * apply (Hitem Ha). eapply for_each_files, H.
      * right. exists (S j), m0. repeat split; [lia | exact Hj | exact Hok].
Qed.

End Items.
End LoopFacts.

Import Terms LoopFacts MoreSamples Main.

(** X12: a run that reaches its summary removes no file, has written
    the metadata file, and has added nothing else than destinations of
    entries that passed both gates, each after a transfer made for that
    entry. *)
Theorem run_only_adds_destinations
        api_token username output_dir allowed answers w disk st total :
  download_author_models api_token username output_dir allowed answers w disk
  = Summary st total ->
  disk ⊆ files st
  /\ metadata_path (join output_dir username) ∈ files st
  /\ forall p, p ∈ files st ->
       p ∈ disk \/ p = metadata_path (join output_dir username)
       \/ exists r j m u,
           get_user_models username answers = FetchReturns r
           /\ fetched_models r !! j = Some m
           /\ eligible (List.map lower (default default_licenses allowed)) m = true
           /\ p = destination (join output_dir username) m u
           /\ (S j, Transfer u) ∈ calls st.
Proof.
  intros H.
  destruct (summary_inv _ _ _ _ _ _ _ _ _ H) as (r & _ & Hfetch & _ & _ & _ & Hloop).
  pose proof (for_each_files _ _ _ _ _ _ _ _ Hloop) as Hmono. simpl in Hmono.
  split; [|split].
  - etrans; [apply union_subseteq_r | exact Hmono].
  - apply Hmono, elem_of_union_l, elem_of_singleton. reflexivity.
  - intros p Hp.
    destruct (for_each_new_file _ _ _ _ _ _ _ _ _ Hloop Hp)
      as [Hin | (j & m & u & Hj & Hel & -> & Hcall)].
    + simpl in Hin. apply elem_of_union in Hin as [Hin|Hin]; [|now left].
      apply elem_of_singleton in Hin. auto.
    + right. right. exists r, j, m, u. auto.
Qed.

Lemma run_only_adds_destinations_witness :
  ({[lamp_path]} : gset string) ⊆ files first_summary_on_lamp
  /\ metadata_path (join "downloads" "artist") ∈ files first_summary_on_lamp.
Proof.
  assert (H1 : download_author_models token "artist" "downloads" None
                 three_pages friendly {[lamp_path]}
               = Summary first_summary_on_lamp 4)
    by (vm_compute; reflexivity).
  destruct (run_only_adds_destinations _ _ _ _ _ _ _ _ _ H1) as (Hk & Hm & _).
  split; [exact Hk | exact Hm].
Defined.

(** X13: the loop never starts a transfer whose destination was on disk
    when the run began. *)
Theorem no_transfer_onto_existing_file
        w output_path allowed models disk s' r j m u :
  for_each w output_path allowed 1 models (initial disk) = (s', r) ->
  models !! j = Some m ->
  (S j, Transfer u) ∈ calls s' ->
  destination output_path m u ∉ disk.
Proof.
  intros H Hj Hin.
  destruct (for_each_transfers _ _ _ _ _ _ _ _ H) as (C & HC & _ & Hfresh).
  simpl in HC. rewrite HC in Hin. exact (Hfresh j m u Hj Hin).
Qed.

Lemma no_transfer_onto_existing_file_witness :
  destination "downloads/artist" robot "https://cdn.example/a1f0/robot.zip?sig=1"
  ∉ ({[lamp_path]} : gset string).
Proof.
  apply (no_transfer_onto_existing_file friendly "downloads/artist"
           (List.map lower default_licenses) [robot; castle; tree; lamp]
           {[lamp_path]} (State 2 1 1 ({[robot_path]} ∪ {[lamp_path]})
                                [(1, Resolve (resolve_url robot));
                                 (1, Transfer "https://cdn.example/a1f0/robot.zip?sig=1");
                                 (4, Resolve (resolve_url lamp))]
                                [(1, Saved); (2, SkippedLicense); (3, NotDownloadable);
                                 (4, AlreadyExists)])
           (inr tt) 0 robot).
  - vm_compute. reflexivity.
  - reflexivity.
  - do 1 apply list_elem_of_further. apply list_elem_of_here.
Defined.

(** X14: in a loop that ends normally, every entry that passes both
    gates has exactly one resolution request in the log, at the URL of
    its identifier, followed by at most one transfer and by nothing
    else. *)
Theorem calls_per_entry w output_path allowed models disk s' j m :
  for_each w output_path allowed 1 models (initial disk) = (s', inr tt) ->
  models !! j = Some m ->
  eligible allowed m = true ->
  calls_at (S j) (calls s') = [(S j, Resolve (resolve_url m))]
  \/ exists u, calls_at (S j) (calls s')
               = [(S j, Resolve (resolve_url m)); (S j, Transfer u)].
Proof.
  intros H Hj Hel.
  destruct (for_each_call_shape _ _ _ _ _ _ _ H) as (C & HC & _ & Hshape).
  simpl in HC. rewrite HC. exact (proj2 (Hshape j m Hj) Hel).
Qed.

Lemma calls_per_entry_witness :
  calls_at 4 (calls first_summary) = [(4, Resolve (resolve_url lamp))]
  \/ exists u, calls_at 4 (calls first_summary)
               = [(4, Resolve (resolve_url lamp)); (4, Transfer u)].
Proof.
  apply (calls_per_entry friendly "downloads/artist"
           (List.map lower default_licenses) [robot; castle; tree; lamp]
           ({[metadata_file]} ∪ ∅) first_summary 3 lamp).
  - vm_compute. reflexivity.
  - reflexivity.
  - reflexivity.
Defined.

(** X15: whenever the loop reports an entry as saved or as already
    present, a file at a destination of that entry is on disk when the
    loop ends, normally or not. *)
Theorem success_means_file_on_disk w output_path allowed models disk s' r j o :
  for_each w output_path allowed 1 models (initial disk) = (s', r) ->
  (S j, o) ∈ reports s' ->
  is_success o = true ->
  exists m u, models !! j = Some m /\ destination output_path m u ∈ files s'.
Proof.
  intros H Hin Hok.
  destruct (for_each_success_file _ _ _ _ _ _ _ _ _ _ H Hin)
    as [Hinit | (j' & m & Ej & Hj & Hfile)].
  - simpl in Hinit. now apply elem_of_nil in Hinit.
  - assert (j' = j) as -> by lia.
    destruct (Hfile Hok) as (u & Hu). eauto.
Qed.

Lemma success_means_file_on_disk_witness :
  exists m u,
    [robot; castle; tree; lamp] !! 3 = Some m
    /\ destination "downloads/artist" m u ∈ files first_summary.
Proof.
  apply (success_means_file_on_disk friendly "downloads/artist"
           (List.map lower default_licenses) [robot; castle; tree; lamp]
           ({[metadata_file]} ∪ ∅) first_summary (inr tt) 3 Saved).
  - vm_compute. reflexivity.
  - do 3 apply list_elem_of_further. apply list_elem_of_here.
  - reflexivity.
Defined.

(** What lines 96-101 make of entries whose fields are not of the
    expected type. *)
Example fields_of_odd_entries :
  fields orphan = inl AttributeError
  /\ fields unlabeled = inl AttributeError
  /\ fields nameless = inl TypeError
  /\ fields numbered = inl AttributeError
  /\ fields listed = inr ("cc0", "Vase_b").
Proof. repeat split. Qed.



(** An entry that passes both gates goes to its [try] block, under its
    sanitized name. *)
Lemma process_model_eligible w output_path allowed i m s :
  eligible allowed m = true ->
  process_model w output_path allowed i m s
  = try_except (attempt w output_path i (stem m) (uid m))
               (fun e => report i (FailedWith e);; modify count_failed) s.
Proof.
  unfold process_model, eligible, license_ok, fields, stem.
  unfold lift, mbind, M_bind.
  intros Hel.
  destruct (license_label m) as [e0|l]; [discriminate|].
  destruct (safe_name m) as [e0|n]; [discriminate|].
  apply andb_true_iff in Hel as [-> ->]. reflexivity.
Qed.

(** X17: when the connection breaks while the body of a download is
    written, the entry is tallied as failed but its partly written file
    stays on disk; the next time the entry is resolved to the same
    location it is reported as already present and tallied as a success,
    without a transfer. *)
Theorem interrupted_body_leaves_file w output_path allowed i m s d u r e :
  eligible allowed m = true ->
  get_resolve w i (resolve_url m) = inr (ResolveResponse 200 (inr d)) ->
  pick_url d = Some u -> truthy u = true ->
  destination output_path m u ∉ files s ->
  get_stream w i u = inr r -> opens r ->
  open_refused w i (destination output_path m u) = None ->
  body_error r = Some e -> is_Exception e = true ->
  exists s1,
    process_model w output_path allowed i m s = (s1, inr tt)
    /\ destination output_path m u ∈ files s1
    /\ reports s1 = reports s ++ [(i, FailedWith e)]
    /\ failed s1 = S (failed s) /\ successful s1 = successful s
    /\ forall w' i' s2,
        destination output_path m u ∈ files s2 ->
        get_resolve w' i' (resolve_url m) = inr (ResolveResponse 200 (inr d)) ->
        exists s3,
          process_model w' output_path allowed i' m s2 = (s3, inr tt)
          /\ reports s3 = reports s2 ++ [(i', AlreadyExists)]
          /\ successful s3 = S (successful s2) /\ failed s3 = failed s2
          /\ calls s3 = calls s2 ++ [(i', Resolve (resolve_url m))].
Proof.
  unfold destination, resolve_url, opens.
  intros Hel Hres Hpick Hu Hfresh Hget (Hstatus & n & Hlen) Hopen Hbody Hexc.
  pose proof (proj2 (bool_decide_eq_false _) Hfresh) as Hfresh'.
  eexists. split; [|split; [|split; [|split; [|split]]]].
  - rewrite (process_model_eligible _ _ _ _ _ _ Hel). unfold_item.
    rewrite Hres. simpl. rewrite Hpick, Hu. cbn [files log_call].
    rewrite Hfresh', Hget. simpl.
    rewrite Hstatus, Hlen, Hopen, Hbody, Hexc. reflexivity.
  - simpl. apply elem_of_union_l, elem_of_singleton. reflexivity.
  - reflexivity.
  - reflexivity.
  - reflexivity.
  - intros w' i' s2 Hin Hres'. pose proof (proj2 (bool_decide_eq_true _) Hin) as Hin'.
    eexists. split.
    { rewrite (process_model_eligible _ _ _ _ _ _ Hel). unfold_item.
      rewrite Hres'. simpl. rewrite Hpick, Hu. cbn [files log_call].
      rewrite Hin'. reflexivity. }
    repeat split.
Qed.

Lemma interrupted_body_leaves_file_witness :
  exists s1,
    process_model breaking "downloads/artist" (List.map lower default_licenses)
                  1 lamp (initial ∅) = (s1, inr tt)
    /\ lamp_path ∈ files s1
    /\ reports s1 = [(1, FailedWith ChunkedEncodingError)]
    /\ exists s3,
        process_model friendly "downloads/artist" (List.map lower default_licenses)
                      1 lamp (initial (files s1)) = (s3, inr tt)
        /\ reports s3 = [(1, AlreadyExists)]
        /\ successful s3 = 1.
Proof.
  destruct (interrupted_body_leaves_file breaking "downloads/artist"
              (List.map lower default_licenses) 1 lamp (initial ∅)
              (DownloadData None (Some (Some "https://cdn.example/d4c7/lamp.glb")))
              "https://cdn.example/d4c7/lamp.glb"
              (DlResponse 200 (inr 2048%Z) (Some ChunkedEncodingError))
              ChunkedEncodingError)
    as (s1 & H1 & Hfile & Hrep & _ & _ & Hnext);
    try reflexivity.
  - apply not_elem_of_empty.
  - split; [reflexivity | eexists; reflexivity].
  - exists s1. split; [exact H1|]. split; [exact Hfile|]. split; [exact Hrep|].
    destruct (Hnext friendly 1 (initial (files s1)) Hfile eq_refl)
      as (s3 & H3 & Hrep3 & Hok & _).
    exists s3. split; [exact H3|]. split; [exact Hrep3 | exact Hok].
Defined.

(** X18: a "source" entry whose URL is [null] or empty is not rescued
    by the glTF entry: whatever the glTF entry holds, the item is
    reported as having no download URL and tallied as failed after the
    one resolution request. *)
Theorem unusable_source_shadows_gltf w output_path allowed i m s d v :
  eligible allowed m = true ->
  get_resolve w i (resolve_url m) = inr (ResolveResponse 200 (inr d)) ->
  source d = Some v -> truthy_opt v = false ->
  process_model w output_path allowed i m s
  = (count_failed (log_report (i, NoDownloadUrl)
                              (log_call (i, Resolve (resolve_url m)) s)),
     inr tt).
Proof.
  unfold resolve_url.
  intros Hel Hres Hsrc Hv.
  rewrite (process_model_eligible _ _ _ _ _ _ Hel).
  unfold_item. rewrite Hres. simpl.
  unfold pick_url. rewrite Hsrc.
  destruct v as [u|]; [|reflexivity].
  simpl in Hv. now rewrite Hv.
Qed.

Lemma unusable_source_shadows_gltf_witness :
  process_model shadowed "downloads/artist" (List.map lower default_licenses)
                4 lamp (initial ∅)
  = (State 0 1 0 ∅ [(4, Resolve (resolve_url lamp))] [(4, NoDownloadUrl)], inr tt).
Proof.
  apply (unusable_source_shadows_gltf shadowed "downloads/artist"
           (List.map lower default_licenses) 4 lamp (initial ∅)
           (DownloadData (Some None) (Some (Some "https://cdn.example/d4c7/lamp.glb")))
           None); reflexivity.
Defined.

(** ** The entry point *)

(** X19: [main] starts the downloader only after three lines were read,
    with a token and an account name that are not blank once trimmed;
    the run it starts is the one on the trimmed inputs, with "downloads"
    for a blank directory and the default filter, and it never ends at
    the downloader's own token check. *)
Theorem main_guards_its_inputs stdin answers w disk r :
  main stdin answers w disk = Ran r ->
  exists line1 line2 line3 rest,
    stdin = line1 :: line2 :: line3 :: rest
    /\ truthy (strip line1) = true
    /\ truthy (strip line2) = true
    /\ r = download_author_models
             (Some (strip line1)) (strip line2)
             (if truthy (strip line3) then strip line3 else "downloads")
             None answers w disk
    /\ r <> ReturnsNoToken.
Proof.
  unfold main. intros H.
  destruct stdin as [|line1 [|line2 [|line3 rest]]]; try discriminate;
    destruct (truthy (strip line1)) eqn:H1; try discriminate;
    simpl in H; try discriminate;
    destruct (truthy (strip line2)) eqn:H2; try discriminate.
  simpl in H. injection H as <-.
  exists line1, line2, line3, rest.
  split; [reflexivity|]. split; [exact H1|]. split; [exact H2|]. split.
  - now destruct (truthy (strip line3)).
  - unfold download_author_models. cbn [truthy_opt]. rewrite H1. cbn [negb].
    destruct (get_user_models _ _) as [f| |]; try discriminate.
    destruct (fetched_models f); [discriminate|].
    destruct (open_refused w 0 _); [discriminate|].
    destruct (for_each _ _ _ _ _ _) as [st [e|[]]]; discriminate.
Qed.

Lemma main_guards_its_inputs_witness :
  exists line1 line2 line3 rest,
    [" 0123abcd "; "artist"; ""] = line1 :: line2 :: line3 :: rest
    /\ truthy (strip line1) = true
    /\ truthy (strip line2) = true
    /\ Summary first_summary 4
       = download_author_models
           (Some (strip line1)) (strip line2)
           (if truthy (strip line3) then strip line3 else "downloads")
           None three_pages friendly ∅
    /\ Summary first_summary 4 <> ReturnsNoToken.
Proof.
  apply (main_guards_its_inputs [" 0123abcd "; "artist"; ""] three_pages friendly ∅).
  vm_compute. reflexivity.
Defined.

(** X20: [main] reads three lines and ignores what surrounds them:
    whitespace around the token, the account name and the directory,
    and any further line, do not change what it does; a blank directory
    line stands for "downloads". *)
Theorem main_ignores_padding line1 line2 line3 rest answers w disk :
  main (line1 :: line2 :: line3 :: rest) answers w disk
  = main [strip line1; strip line2; strip line3] answers w disk
  /\ (truthy (strip line3) = false ->
      main (line1 :: line2 :: line3 :: rest) answers w disk
      = main [line1; line2; "downloads"] answers w disk).
Proof.
  unfold main. rewrite !strip_idem. split; [reflexivity|].
  intros ->. reflexivity.
Qed.

Lemma main_ignores_padding_witness :
  truthy (strip "   ") = false
  /\ main [" 0123abcd "; "artist"; "   "; "ignored"] three_pages friendly ∅
     = main [" 0123abcd "; "artist"; "downloads"] three_pages friendly ∅.
Proof.
  split; [reflexivity|].
  apply (proj2 (main_ignores_padding " 0123abcd " "artist" "   " ["ignored"]
                  three_pages friendly ∅)).
  reflexivity.
Defined.
